(** * mr-version/calculate: the aggregation and manifest-mutation pipeline

    A shallow embedding of [src/index.ts] (the GitHub action that asks the
    [mr-version] tool for one version per project, aggregates the answers
    and writes them back into the project files), and the properties of
    the specification proved or refuted against it.

    Conventions of the embedding:
    - a JavaScript string is the list of its UTF-16 code units, each an [N];
    - the action's side effects (log lines, outputs, files) are threaded
      through an explicit [world], errors through a sum: the monad [M];
    - the Node and platform functions the action calls but does not define
      ([path.*], the glob walker, the [mr-version] process, [JSON.parse])
      are the fields of an environment record [Env];
    - [JSON.stringify] is kept symbolic: an output carries the value that
      is serialised, not its text;
    - the platform's logging, output and summary calls ([core.info],
      [core.warning], [core.setOutput], [core.summary]) only add an event
      to the world and are taken not to throw;
    - the object [createVersionMap] uses as a map is a finite map from
      strings to strings.

    The first part settles the properties the specification states; the
    second part, from "Further properties of the action" on, proves what
    the code shows beyond them: what the version pattern accepts, how the
    tool is called and its failures are reported, which files an update
    can touch and what it makes of a property, and every way [run] can
    end. *)

From stdpp Require Import gmap list strings.
From Stdlib Require Import NArith Ascii DecimalString.

Local Open Scope N_scope.

(** ** Strings *)

Module JsString.

(** A string is its sequence of UTF-16 code units. *)
Abbreviation jsstring := (list N).

(** An ASCII literal as a string. *)
Definition str (s : string) : jsstring :=
  N_of_ascii <$> String.list_ascii_of_string s.

Definition LT : N := 60.      (* < *)
Definition GT : N := 62.      (* > *)
Definition SLASH : N := 47.   (* / *)
Definition DOLLAR : N := 36.  (* $ *)
Definition AMP : N := 38.     (* & *)
Definition BACKTICK : N := 96.
Definition QUOTE : N := 39.   (* ' *)
Definition DOT : N := 46.     (* . *)
Definition DASH : N := 45.    (* - *)
Definition LF : N := 10.

(** [\d]: without the [u] flag, exactly the ten ASCII digits. *)
Definition is_digit (c : N) : bool := (48 <=? c) && (c <=? 57).

(** The code units that [.] refuses: LF, CR, U+2028 and U+2029. *)
Definition is_line_terminator (c : N) : bool :=
  (c =? 10) || (c =? 13) || (c =? 8232) || (c =? 8233).

(** [s.startsWith(p)] *)
Fixpoint starts_with (p s : jsstring) : bool :=
  match p, s with
  | [], _ => true
  | a :: p', b :: s' => (a =? b) && starts_with p' s'
  | _ :: _, [] => false
  end.

(** [s.endsWith(p)] *)
Definition ends_with (p s : jsstring) : bool :=
  starts_with (reverse p) (reverse s).

(** The longest prefix whose code units satisfy [p], and the rest. *)
Fixpoint span (p : N → bool) (s : jsstring) : jsstring * jsstring :=
  match s with
  | [] => ([], [])
  | c :: s' =>
      if p c then let '(a, b) := span p s' in (c :: a, b) else ([], s)
  end.

(** [s.split(/[...]/)] for a character class [sep]: the pieces between the
    separators, one more than there are separators. *)
Fixpoint split_on (sep : N → bool) (s : jsstring) : list jsstring :=
  match s with
  | [] => [[]]
  | c :: s' =>
      if sep c then [] :: split_on sep s'
      else match split_on sep s' with
           | [] => [[c]]
           | piece :: pieces => (c :: piece) :: pieces
           end
  end.

(** [pieces.join(sep)] *)
Fixpoint join (sep : jsstring) (pieces : list jsstring) : jsstring :=
  match pieces with
  | [] => []
  | [p] => p
  | p :: ps => p ++ sep ++ join sep ps
  end.

(** [x || d] on a possibly missing string: [undefined] and the empty string
    are falsy. *)
Definition or_default (x : option jsstring) (d : jsstring) : jsstring :=
  match x with
  | Some (c :: s) => c :: s
  | _ => d
  end.

(** Truthiness of a possibly missing string. *)
Definition truthy (x : option jsstring) : bool :=
  match x with
  | Some (_ :: _) => true
  | _ => false
  end.

(** A value inside a template literal: [undefined] prints as such. *)
Definition template (x : option jsstring) : jsstring :=
  match x with
  | Some s => s
  | None => str "undefined"
  end.

(** A number inside a template literal (array lengths here). *)
Definition of_nat (n : nat) : jsstring :=
  str (NilZero.string_of_uint (Nat.to_uint n)).

(** A possibly negative number inside a template literal. *)
Definition of_int (z : Z) : jsstring :=
  str (NilZero.string_of_int (Z.to_int z)).

Definition of_bool (b : bool) : jsstring :=
  if b then str "true" else str "false".

(** [s.toLowerCase()] on the ASCII letters. The results are only compared
    with ASCII words none of whose letters is the lower case of a
    non-ASCII code unit, so the other code units can stay as they are. *)
Definition to_lower (s : jsstring) : jsstring :=
  (λ c, if (65 <=? c) && (c <=? 90) then c + 32 else c) <$> s.

Definition eqb (a b : jsstring) : bool := bool_decide (a = b).

End JsString.
Export JsString.

(** ** The regular expressions of the action *)

Module Regex.

(** *** [/^(\d+)\.(\d+)\.(\d+)(?:-(.+))?$/] *)

Record version_groups := VersionGroups {
  major : jsstring;
  minor : jsstring;
  patch : jsstring;
  prerelease : option jsstring   (* [None]: the group did not take part *)
}.

(** [(\d+)]: a greedy run of digits, at least one. Every pattern item that
    follows such a group here ([\.], [-], [$]) refuses a digit, so giving
    digits back can never make a failed match succeed. *)
Definition re_digits (s : jsstring) : option (jsstring * jsstring) :=
  match span is_digit s with
  | ([], _) => None
  | (d, rest) => Some (d, rest)
  end.

(** A literal code unit. *)
Definition re_char (c : N) (s : jsstring) : option jsstring :=
  match s with
  | c' :: s' => if c' =? c then Some s' else None
  | [] => None
  end.

(** [(?:-(.+))?$]: either a dash and then the whole non-empty rest, which
    [.] must accept up to the end of the input, or nothing at all. *)
Definition re_prerelease (s : jsstring) : option (option jsstring) :=
  match s with
  | [] => Some None
  | c :: rest =>
      if (c =? DASH) && bool_decide (rest ≠ [])
         && forallb (λ x, negb (is_line_terminator x)) rest
      then Some (Some rest) else None
  end.

(** [version.match(/^(\d+)\.(\d+)\.(\d+)(?:-(.+))?$/)] *)
Definition version_match (s : jsstring) : option version_groups :=
  '(ma, s1) ← re_digits s;
  s2 ← re_char DOT s1;
  '(mi, s3) ← re_digits s2;
  s4 ← re_char DOT s3;
  '(pa, s5) ← re_digits s4;
  pre ← re_prerelease s5;
  Some (VersionGroups ma mi pa pre).

(** *** [content.replace(/<Tag>.*<\/Tag>/g, replacement)] *)

(** The replacement text of one match (GetSubstitution) for a pattern
    without capture groups: [$$], [$&], [$`] and [$'] are expanded, every
    other code unit, a [$] before anything else included, stands for
    itself. *)
Fixpoint expand (repl matched before after : jsstring) : jsstring :=
  match repl with
  | [] => []
  | c :: r =>
      if negb (c =? DOLLAR) then c :: expand r matched before after
      else match r with
           | [] => [c]
           | d :: r' =>
               if d =? DOLLAR then DOLLAR :: expand r' matched before after
               else if d =? AMP then matched ++ expand r' matched before after
               else if d =? BACKTICK then before ++ expand r' matched before after
               else if d =? QUOTE then after ++ expand r' matched before after
               else c :: expand r matched before after
           end
  end.

(** [.*close] at the head of [s]: the number of code units matched. The
    star is greedy: it first lets [.] take one more code unit and only if
    the rest then fails does it try [close] where it stands. *)
Fixpoint dotstar_then (close s : jsstring) : option nat :=
  match s with
  | [] => if starts_with close [] then Some (length close) else None
  | c :: s' =>
      match (if is_line_terminator c then None else dotstar_then close s') with
      | Some n => Some (S n)
      | None => if starts_with close s then Some (length close) else None
      end
  end.

(** [open.*close] at the head of [s]. *)
Definition match_here (open close s : jsstring) : option nat :=
  if starts_with open s
  then (λ n, (length open + n)%nat) <$> dotstar_then close (drop (length open) s)
  else None.

(** The scan of a global replace: [before] is the input already passed,
    [skip] the number of code units of the current match still to pass.
    (The patterns of the action never match the empty string.) *)
Fixpoint replace_from (open close repl before : jsstring) (skip : nat)
    (s : jsstring) : jsstring :=
  match s with
  | [] => []
  | c :: s' =>
      match skip with
      | S k => replace_from open close repl (before ++ [c]) k s'
      | O =>
          match match_here open close s with
          | Some (S k) =>
              expand repl (take (S k) s) before (drop (S k) s)
              ++ replace_from open close repl (before ++ [c]) k s'
          | _ => c :: replace_from open close repl (before ++ [c]) O s'
          end
      end
  end.

Definition replace_all (open close repl s : jsstring) : jsstring :=
  replace_from open close repl [] O s.

End Regex.
Export Regex.

(** ** The data model *)

(** [interface ProjectVersion]: what [mr-version] reports for one project. *)
Record ProjectVersion := {
  project : jsstring;
  path : jsstring;
  version : jsstring;
  versionChanged : bool;
  changeReason : option jsstring;
  commitSha : option jsstring;
  commitDate : option jsstring;
  commitMessage : option jsstring;
  branchType : option jsstring;
  branchName : option jsstring;
  isTestProject : bool;
  isPackable : bool;
  dependencies : list jsstring
}.

(** [interface VersionCalculationResult] *)
Record VersionCalculationResult := {
  projects : list ProjectVersion;
  changedProjects : list ProjectVersion;
  hasChanges : bool;
  summary : jsstring
}.

(** [interface CalculateVersionOptions] *)
Record CalculateVersionOptions := {
  projectFile : jsstring;
  repositoryPath : jsstring;
  prereleaseType : jsstring;
  tagPrefix : jsstring;
  forceVersion : jsstring;
  opt_dependencies : jsstring;
  configFile : jsstring;
  dryRun : bool
}.

(** ** Errors, effects and the world they act on *)

(** A thrown [Error]: its name and its message. *)
Record js_error := JsError { err_name : jsstring; err_message : jsstring }.

(** [new Error(message)] *)
Definition Error (message : jsstring) : js_error := JsError (str "Error") message.

(** [String(error)], also what [error] prints as in a template literal. *)
Definition error_to_string (e : js_error) : jsstring :=
  match err_name e, err_message e with
  | [], m => m
  | n, [] => n
  | n, m => n ++ str ": " ++ m
  end.

(** A value handed to [JSON.stringify]; the serialisation stays symbolic. *)
Inductive output_value :=
| Text (s : jsstring)
| JsonProjects (ps : list ProjectVersion)
| JsonVersionMap (m : gmap jsstring jsstring)
| JsonResult (r : VersionCalculationResult).

(** What a run leaves behind, in the order it happens. *)
Inductive event :=
| Info (message : jsstring)                        (* core.info *)
| Warning (message : jsstring)                     (* core.warning *)
| SetFailed (message : jsstring)                   (* core.setFailed *)
| SetOutput (name : jsstring) (value : output_value)
| JobSummary (heading : jsstring) (code : output_value) (lang : jsstring)
| FileWritten (file content : jsstring).           (* fs.writeFile that went through *)

(** The file system (the text of each file, and the paths that refuse a
    write) and the events so far. *)
Record world := World {
  files : gmap jsstring jsstring;
  locked : gset jsstring;
  events : list event
}.

Definition M (A : Type) : Type := world → (js_error + A) * world.

#[export] Instance M_ret : MRet M := λ A a w, (inr a, w).
#[export] Instance M_bind : MBind M := λ A B k m w,
  match m w with
  | (inr a, w') => k a w'
  | (inl e, w') => (inl e, w')
  end.

Definition throw {A} (e : js_error) : M A := λ w, (inl e, w).

(** [try { m } catch (error) { handler error }] *)
Definition try_catch {A} (m : M A) (handler : js_error → M A) : M A := λ w,
  match m w with
  | (inl e, w') => handler e w'
  | r => r
  end.

(** A result computed outside the world, which may be a throw. *)
Definition lift {A} (r : js_error + A) : M A :=
  match r with
  | inl e => throw e
  | inr a => mret a
  end.

Definition emit (e : event) : M unit := λ w,
  (inr tt, World (files w) (locked w) (events w ++ [e])).

Definition info (message : jsstring) : M unit := emit (Info message).
Definition warning (message : jsstring) : M unit := emit (Warning message).
Definition setFailed (message : jsstring) : M unit := emit (SetFailed message).
Definition setOutput (name : jsstring) (value : output_value) : M unit :=
  emit (SetOutput name value).

(** [for (const x of l) { body x }] *)
Fixpoint for_each {A} (l : list A) (body : A → M unit) : M unit :=
  match l with
  | [] => mret tt
  | x :: l' => body x;; for_each l' body
  end.

(** A loop that pushes one result per element. *)
Fixpoint map_m {A B} (f : A → M B) (l : list A) : M (list B) :=
  match l with
  | [] => mret []
  | x :: l' => y ← f x; ys ← map_m f l'; mret (y :: ys)
  end.

(** The messages Node gives the two file errors modelled. *)
Definition ENOENT (file : jsstring) : js_error :=
  Error (str "ENOENT: no such file or directory, open '" ++ file ++ str "'").
Definition EACCES (file : jsstring) : js_error :=
  Error (str "EACCES: permission denied, open '" ++ file ++ str "'").

(** [fs.readFile(file, 'utf8')] *)
Definition readFile (file : jsstring) : M jsstring := λ w,
  match files w !! file with
  | Some content => (inr content, w)
  | None => (inl (ENOENT file), w)
  end.

(** [fs.writeFile(file, content, 'utf8')] *)
Definition writeFile (file content : jsstring) : M unit := λ w,
  if bool_decide (file ∈ locked w) then (inl (EACCES file), w)
  else (inr tt, World (<[file := content]> (files w)) (locked w)
                      (events w ++ [FileWritten file content])).

(** ** The environment: what the action calls but does not define *)

Record ExecOutput := {
  exitCode : Z;
  stdout : jsstring;
  stderr : jsstring
}.

Record Env := {
  getInput : jsstring → jsstring;                      (* core.getInput *)
  getBooleanInput : jsstring → js_error + bool;         (* core.getBooleanInput *)
  cwd : jsstring;                                        (* process.cwd() *)
  path_relative : jsstring → jsstring → jsstring;      (* path.relative *)
  path_resolve : jsstring → jsstring → jsstring;       (* path.resolve *)
  path_dirname : jsstring → jsstring;                   (* path.dirname *)
  path_join : jsstring → jsstring → jsstring;          (* path.join *)
  glob : jsstring → js_error + list jsstring;           (* glob.create(..).glob() *)
  getExecOutput : jsstring → list jsstring → js_error + ExecOutput;
  JSON_parse : jsstring → js_error + ProjectVersion    (* JSON.parse(..) as ProjectVersion *)
}.

(** ** The action *)

Section Action.

Variable env : Env.

(** [s || d] on an input: the empty string is falsy. *)
Definition or_else (s d : jsstring) : jsstring :=
  match s with
  | [] => d
  | _ => s
  end.

(** White space and line terminators, as [trim] understands them. *)
Definition is_whitespace (c : N) : bool :=
  (c =? 9) || (c =? 11) || (c =? 12) || (c =? 32) || (c =? 160)
  || (c =? 65279) || (c =? 5760) || ((8192 <=? c) && (c <=? 8202))
  || (c =? 8239) || (c =? 8287) || (c =? 12288) || is_line_terminator c.

(** [s.trim()] *)
Definition trim (s : jsstring) : jsstring :=
  reverse (span is_whitespace (reverse (span is_whitespace s).2)).2.

(** [findProjectFiles(pattern, repositoryPath)] *)
Definition findProjectFiles (pattern repositoryPath : jsstring)
    : M (list jsstring) :=
  found ← lift (glob env pattern);
  mret (path_resolve env repositoryPath <$>
        filter (λ file, ends_with (str ".csproj") file
                        || ends_with (str ".vbproj") file
                        || ends_with (str ".fsproj") file) found).

(** [calculateProjectVersion(options)] *)
Definition calculateProjectVersion (options : CalculateVersionOptions)
    : M ProjectVersion :=
  let args :=
    [str "version"; str "--repo"; repositoryPath options;
     str "--project"; projectFile options; str "--json"]
    ++ (if bool_decide (prereleaseType options ≠ [])
           && negb (eqb (prereleaseType options) (str "none"))
        then [str "--prerelease-type"; prereleaseType options] else [])
    ++ (if bool_decide (tagPrefix options ≠ [])
        then [str "--tag-prefix"; tagPrefix options] else [])
    ++ (if bool_decide (forceVersion options ≠ [])
        then [str "--force-version"; forceVersion options] else [])
    ++ (if bool_decide (opt_dependencies options ≠ [])
        then [str "--dependencies"; opt_dependencies options] else [])
    ++ (if bool_decide (configFile options ≠ [])
        then [str "--config-file"; configFile options] else [])
    ++ (if dryRun options then [str "--dry-run"] else []) in
  output ← lift (getExecOutput env (str "mr-version") args);
  if negb (exitCode output =? 0)%Z then
    throw (Error (str "mr-version failed for " ++ projectFile options
                  ++ str ": " ++ stderr output))
  else
    try_catch
      (let out := trim (stdout output) in
       if bool_decide (out = []) then
         throw (Error (str "mr-version returned empty output"))
       else lift (JSON_parse env out))
      (λ error,
         throw (Error (str "Failed to parse mr-version output for "
                       ++ projectFile options ++ str ": "
                       ++ error_to_string error))).

(** The lines of [generateSummary], before they are joined. *)
Definition summary_lines (allProjects changedProjects : list ProjectVersion)
    : list jsstring :=
  [str "**" ++ [55357; 56522] ++ str " Version Calculation Summary**";
   str "- Total projects: " ++ of_nat (length allProjects);
   str "- Projects with changes: " ++ of_nat (length changedProjects);
   str "- Projects unchanged: "
     ++ of_int (Z.of_nat (length allProjects)
                - Z.of_nat (length changedProjects))]
  ++ (if bool_decide (0 < length changedProjects)%nat then
        [[]; str "**" ++ [55357; 56580] ++ str " Changed Projects:**"]
        ++ ((λ p, str "- **" ++ project p ++ str "**: " ++ version p
                  ++ str " _(" ++ template (changeReason p) ++ str ")_")
            <$> changedProjects)
      else [])
  ++ (if bool_decide (0 < Z.of_nat (length allProjects)
                          - Z.of_nat (length changedProjects))%Z then
        [[]; str "**" ++ [9989] ++ str " Unchanged Projects:**"]
        ++ ((λ p, str "- **" ++ project p ++ str "**: " ++ version p)
            <$> filter (λ p, negb (versionChanged p)) allProjects)
      else []).

(** [generateSummary(allProjects, changedProjects)] *)
Definition generateSummary (allProjects changedProjects : list ProjectVersion)
    : jsstring :=
  join [LF] (summary_lines allProjects changedProjects).

(** [analyzeResults(projects, includeTestProjects)] *)
Definition analyzeResults (projects : list ProjectVersion)
    (includeTestProjects : bool) : M VersionCalculationResult :=
  let testProjectCount := length (filter (λ p, isTestProject p) projects) in
  let filteredProjects :=
    if includeTestProjects then projects
    else filter (λ p, negb (isTestProject p)) projects in
  (if negb includeTestProjects && bool_decide (0 < testProjectCount)%nat
   then info (str "Filtered out " ++ of_nat testProjectCount
              ++ str " test project(s)")
   else mret tt);;
  let changedProjects := filter (λ p, versionChanged p) filteredProjects in
  let hasChanges := bool_decide (0 < length changedProjects)%nat in
  let summary := generateSummary filteredProjects changedProjects in
  mret {| projects := filteredProjects;
          changedProjects := changedProjects;
          hasChanges := hasChanges;
          summary := summary |}.

(** [formatAsYaml(result)] *)
Definition formatAsYaml (result : VersionCalculationResult) : jsstring :=
  join [LF]
    ([str "```yaml"; str "projects:"]
     ++ mjoin ((λ p,
          [str "  - name: " ++ project p;
           str "    version: " ++ version p;
           str "    changed: " ++ of_bool (versionChanged p)]
          ++ (if truthy (changeReason p)
              then [str "    reason: " ++ [34] ++ template (changeReason p) ++ [34]]
              else [])) <$> projects result)
     ++ [str "```"]).

(** [formatAsText(result)] *)
Definition formatAsText (result : VersionCalculationResult) : jsstring :=
  join [LF]
    ([str "```"; str "Project Versions:"; str "================"]
     ++ mjoin ((λ p,
          let status := if versionChanged p
                        then [55357; 56580] ++ str " CHANGED"
                        else [9989] ++ str " UNCHANGED" in
          [status ++ str " " ++ project p ++ str ": " ++ version p]
          ++ (if truthy (changeReason p)
              then [str "    Reason: " ++ template (changeReason p)]
              else [])) <$> projects result)
     ++ [str "```"]).

(** [formatSummary(result, format)] *)
Definition formatSummary (result : VersionCalculationResult)
    (format : jsstring) : output_value :=
  if eqb (to_lower format) (str "yaml") then Text (formatAsYaml result)
  else if eqb (to_lower format) (str "text") then Text (formatAsText result)
  else JsonResult result.

(** [createVersionMap(projects)]: the loop body, then the loop. *)
Definition add_to_version_map (map : gmap jsstring jsstring)
    (p : ProjectVersion) : gmap jsstring jsstring :=
  let map := <[project p := version p]> map in
  let relativePath := path_relative env (cwd env) (path p) in
  <[relativePath := version p]> map.

Definition createVersionMap (projects : list ProjectVersion)
    : gmap jsstring jsstring :=
  foldl add_to_version_map ∅ projects.

(** The opening and the closing tag of an MSBuild property. *)
Definition open_tag (name : jsstring) : jsstring := [LT] ++ name ++ [GT].
Definition close_tag (name : jsstring) : jsstring := [LT; SLASH] ++ name ++ [GT].

(** [content.replace(/<Name>.*<\/Name>/g, `<Name>${value}</Name>`)] *)
Definition replace_property (name value content : jsstring) : jsstring :=
  replace_all (open_tag name) (close_tag name)
    (open_tag name ++ value ++ close_tag name) content.

(** The text [updateProjectFile] computes from the text it read. *)
Definition updated_content (p : ProjectVersion) (g : version_groups)
    (content : jsstring) : jsstring :=
  let updatedContent := content in
  let updatedContent :=
    replace_property (str "Version") (version p) updatedContent in
  let updatedContent :=
    replace_property (str "VersionMajor") (major g) updatedContent in
  let updatedContent :=
    replace_property (str "VersionMinor") (minor g) updatedContent in
  let updatedContent :=
    replace_property (str "VersionPatch") (patch g) updatedContent in
  if truthy (prerelease g) then
    replace_property (str "VersionSuffix") (template (prerelease g)) updatedContent
  else updatedContent.

(** [updateProjectFile(project)] *)
Definition updateProjectFile (p : ProjectVersion) : M unit :=
  content ← readFile (path p);
  match version_match (version p) with
  | None =>
      warning (str "Cannot parse version " ++ version p ++ str " for " ++ project p)
  | Some g =>
      let updatedContent := updated_content p g content in
      if negb (eqb updatedContent content) then
        writeFile (path p) updatedContent;;
        info (str "Updated version properties in " ++ project p)
      else mret tt
  end.

(** The text of the generated [MrVersion.props]. *)
Definition props_content (p : ProjectVersion) (g : version_groups) : jsstring :=
  str "<Project>" ++ [LF]
  ++ str "  <!-- Generated by Mister.Version -->" ++ [LF]
  ++ str "  <PropertyGroup>" ++ [LF]
  ++ str "    <Version>" ++ version p ++ str "</Version>" ++ [LF]
  ++ str "    <VersionMajor>" ++ major g ++ str "</VersionMajor>" ++ [LF]
  ++ str "    <VersionMinor>" ++ minor g ++ str "</VersionMinor>" ++ [LF]
  ++ str "    <VersionPatch>" ++ patch g ++ str "</VersionPatch>"
  ++ (if truthy (prerelease g)
      then [LF] ++ str "    <VersionSuffix>" ++ template (prerelease g)
           ++ str "</VersionSuffix>"
      else [])
  ++ [LF]
  ++ str "    <AssemblyVersion>" ++ major g ++ str "." ++ minor g ++ str "."
  ++ patch g ++ str ".0</AssemblyVersion>" ++ [LF]
  ++ str "    <FileVersion>" ++ major g ++ str "." ++ minor g ++ str "."
  ++ patch g ++ str ".0</FileVersion>" ++ [LF]
  ++ str "    <InformationalVersion>" ++ version p
  ++ (if truthy (commitSha p)
      then str "+" ++ take 7 (template (commitSha p)) else [])
  ++ str "</InformationalVersion>" ++ [LF]
  ++ str "  </PropertyGroup>" ++ [LF]
  ++ str "</Project>" ++ [LF].

(** [writeMrVersionPropsFile(project)] *)
Definition writeMrVersionPropsFile (p : ProjectVersion) : M unit :=
  let projectDir := path_dirname env (path p) in
  let propsPath := path_join env projectDir (str "MrVersion.props") in
  match version_match (version p) with
  | None =>
      warning (str "Cannot parse version " ++ version p ++ str " for " ++ project p)
  | Some g =>
      writeFile propsPath (props_content p g);;
      info (str "Created MrVersion.props for " ++ project p)
  end.

(** What the loop of [updateProjects] tries for one record ... *)
Definition update_attempt (updateProperties writeProps : bool)
    (p : ProjectVersion) : M unit :=
  (if updateProperties then updateProjectFile p else mret tt);;
  (if writeProps then writeMrVersionPropsFile p else mret tt).

(** ... and the body of the loop: the [try] and its [catch]. *)
Definition update_project (updateProperties writeProps : bool)
    (p : ProjectVersion) : M unit :=
  try_catch (update_attempt updateProperties writeProps p)
    (λ error,
       warning (str "Failed to update project " ++ project p ++ str ": "
                ++ err_message error)).

(** [updateProjects(projects, updateProperties, writeProps)] *)
Definition updateProjects (projects : list ProjectVersion)
    (updateProperties writeProps : bool) : M unit :=
  for_each projects (update_project updateProperties writeProps).

(** [version.split(/[.-]/)] *)
Definition version_parts (version : jsstring) : list jsstring :=
  split_on (λ c, (c =? DOT) || (c =? DASH)) version.

(** The four components [run] reads off the parts. *)
Definition major_output (versionParts : list jsstring) : jsstring :=
  or_default (versionParts !! 0%nat) (str "0").
Definition minor_output (versionParts : list jsstring) : jsstring :=
  or_default (versionParts !! 1%nat) (str "0").
Definition patch_output (versionParts : list jsstring) : jsstring :=
  or_default (versionParts !! 2%nat) (str "0").
Definition prerelease_output (versionParts : list jsstring) : jsstring :=
  if bool_decide (3 < length versionParts)%nat
  then join (str ".") (drop 3 versionParts) else [].

(** The five outputs [run] derives from the first project, or their
    defaults. *)
Definition set_version_components (projects : list ProjectVersion) : M unit :=
  match projects with
  | firstProject :: _ =>
      let versionParts := version_parts (version firstProject) in
      setOutput (str "version") (Text (version firstProject));;
      setOutput (str "major") (Text (major_output versionParts));;
      setOutput (str "minor") (Text (minor_output versionParts));;
      setOutput (str "patch") (Text (patch_output versionParts));;
      setOutput (str "prerelease") (Text (prerelease_output versionParts))
  | [] =>
      setOutput (str "version") (Text (str "0.1.0"));;
      setOutput (str "major") (Text (str "0"));;
      setOutput (str "minor") (Text (str "1"));;
      setOutput (str "patch") (Text (str "0"));;
      setOutput (str "prerelease") (Text [])
  end.

(** [run()] *)
Definition run : M unit :=
  try_catch
    (let projectsInput := or_else (getInput env (str "projects")) (str "**/*.csproj") in
     let repositoryPath := or_else (getInput env (str "repository-path")) (str ".") in
     let prereleaseType := or_else (getInput env (str "prerelease-type")) (str "none") in
     let tagPrefix := or_else (getInput env (str "tag-prefix")) (str "v") in
     let forceVersion := getInput env (str "force-version") in
     let dependencies := getInput env (str "dependencies") in
     let outputFormat := or_else (getInput env (str "output-format")) (str "json") in
     failOnNoChanges ← lift (getBooleanInput env (str "fail-on-no-changes"));
     updateProjectProperties ← lift (getBooleanInput env (str "update-project-properties"));
     writeMrVersionProps ← lift (getBooleanInput env (str "write-mrversion-props"));
     let configFile := getInput env (str "config-file") in
     outputVersionInformation ← lift (getBooleanInput env (str "output-version-information"));
     dryRun ← lift (getBooleanInput env (str "dry-run"));
     includeTestProjects ← lift (getBooleanInput env (str "include-test-projects"));
     info (str "Calculating project versions...");;
     projectFiles ← findProjectFiles projectsInput repositoryPath;
     info (str "Found " ++ of_nat (length projectFiles) ++ str " project files");;
     (if negb includeTestProjects
      then info (str "Test projects will be excluded from results")
      else mret tt);;
     if bool_decide (length projectFiles = 0%nat) && failOnNoChanges then
       setFailed (str "No project files found and fail-on-no-changes is enabled")
     else
       (if bool_decide (length projectFiles = 0%nat)
        then warning (str "No project files found matching the pattern")
        else mret tt);;
       results ← map_m (λ projectFile,
                    calculateProjectVersion
                      {| projectFile := projectFile;
                         repositoryPath := repositoryPath;
                         prereleaseType := prereleaseType;
                         tagPrefix := tagPrefix;
                         forceVersion := forceVersion;
                         opt_dependencies := dependencies;
                         configFile := configFile;
                         dryRun := dryRun |}) projectFiles;
       analysisResult ← analyzeResults results includeTestProjects;
       if failOnNoChanges && negb (hasChanges analysisResult) then
         setFailed (str "No version changes detected and fail-on-no-changes is enabled")
       else
         let versionMap := createVersionMap (projects analysisResult) in
         setOutput (str "projects") (JsonProjects (projects analysisResult));;
         setOutput (str "changed-projects") (JsonProjects (changedProjects analysisResult));;
         setOutput (str "has-changes") (Text (of_bool (hasChanges analysisResult)));;
         setOutput (str "summary") (Text (summary analysisResult));;
         setOutput (str "version-map") (JsonVersionMap versionMap);;
         set_version_components (projects analysisResult);;
         (if updateProjectProperties || writeMrVersionProps then
            if dryRun : bool then info (str "[DRY RUN] Would update project properties")
            else updateProjects (projects analysisResult)
                   updateProjectProperties writeMrVersionProps
          else mret tt);;
         (if outputVersionInformation : bool then
            emit (JobSummary ([55357; 56522] ++ str " Version Calculation Results")
                    (formatSummary analysisResult outputFormat) outputFormat)
          else mret tt);;
         info ([9989] ++ str " Analyzed " ++ of_nat (length results)
               ++ str " projects, "
               ++ of_nat (length (changedProjects analysisResult))
               ++ str " with changes"))
    (λ error,
       setFailed (str "Failed to calculate versions: " ++ err_message error)).

End Action.

(** ** A small concrete environment, for the examples *)

Module Demo.

(** POSIX-like path functions, enough for paths without [.] and [..]. *)
Definition relative (from to : jsstring) : jsstring :=
  if starts_with (from ++ [SLASH]) to then drop (S (length from)) to else to.

Definition dirname (file : jsstring) : jsstring :=
  match reverse (span (λ c, negb (c =? SLASH)) (reverse file)).2 with
  | [] => str "."
  | dir => take (length dir - 1) dir
  end.

Definition join_path (dir file : jsstring) : jsstring := dir ++ [SLASH] ++ file.

Definition resolve (base file : jsstring) : jsstring :=
  if starts_with [SLASH] file then file else join_path base file.

(** An environment whose inputs are all unset but the listed flags, whose
    glob finds [found], and whose [mr-version] answers for a project file
    with the record [table] holds for it (the answer's text is the project
    file itself, which the test [JSON.parse] looks up). *)
Definition env (flags : list jsstring) (found : list jsstring)
    (table : list (jsstring * ProjectVersion)) : Env := {|
  getInput := λ _, [];
  getBooleanInput := λ name, inr (bool_decide (name ∈ flags));
  cwd := str "/repo";
  path_relative := relative;
  path_resolve := resolve;
  path_dirname := dirname;
  path_join := join_path;
  glob := λ _, inr found;
  getExecOutput := λ _ args,
    inr {| exitCode := 0; stdout := default [] (args !! 4%nat); stderr := [] |};
  JSON_parse := λ text,
    match list_find (λ e, e.1 = text) table with
    | Some (_, (_, p)) => inr p
    | None => inl (JsError (str "SyntaxError") (str "Unexpected token"))
    end
|}.

Definition record (name file ver : string) (changed : bool) : ProjectVersion := {|
  project := str name;
  path := str file;
  version := str ver;
  versionChanged := changed;
  changeReason := if changed then Some (str "feat") else None;
  commitSha := None; commitDate := None; commitMessage := None;
  branchType := None; branchName := None;
  isTestProject := false;
  isPackable := true;
  dependencies := []
|}.

Definition empty_world : world := World ∅ ∅ [].

End Demo.

(** ** The vocabulary of the specification *)

(** A matched version put together again: dots between the numbers, a dash
    before the prerelease when there is one. *)
Definition rejoin (g : version_groups) : jsstring :=
  major g ++ [DOT] ++ minor g ++ [DOT] ++ patch g
  ++ match prerelease g with
     | Some pre => [DASH] ++ pre
     | None => []
     end.


(** [selects P l k]: [k] is [l] with exactly the elements that satisfy [P]
    kept, each once and in the order of [l]. *)
Inductive selects {A} (P : A → Prop) : list A → list A → Prop :=
| selects_nil : selects P [] []
| selects_keep x l k : P x → selects P l k → selects P (x :: l) (x :: k)
| selects_drop x l k : ¬ P x → selects P l k → selects P (x :: l) k.

(** The value an output holds after the events [evs]: the last one set. *)
Definition output_of (name : jsstring) (evs : list event) : option output_value :=
  last (omap (λ e, match e with
                   | SetOutput n v => if eqb n name then Some v else None
                   | _ => None
                   end) evs).

(** The world with one more warning. *)
Definition warned (w : world) (message : jsstring) : world :=
  World (files w) (locked w) (events w ++ [Warning message]).


(** The options [run] hands to [calculateProjectVersion] for a project
    file. *)
Definition run_options (env : Env) (dryRun : bool) (projectFile : jsstring)
    : CalculateVersionOptions := {|
  projectFile := projectFile;
  repositoryPath := or_else (getInput env (str "repository-path")) (str ".");
  prereleaseType := or_else (getInput env (str "prerelease-type")) (str "none");
  tagPrefix := or_else (getInput env (str "tag-prefix")) (str "v");
  forceVersion := getInput env (str "force-version");
  opt_dependencies := getInput env (str "dependencies");
  configFile := getInput env (str "config-file");
  dryRun := dryRun
|}.

(** The five component outputs, as events. *)
Definition component_outputs (version major minor patch prerelease : jsstring)
    : list event :=
  [SetOutput (str "version") (Text version);
   SetOutput (str "major") (Text major);
   SetOutput (str "minor") (Text minor);
   SetOutput (str "patch") (Text patch);
   SetOutput (str "prerelease") (Text prerelease)].

(** Strings without [<], without a line terminator, without [$]. *)
Definition plain (s : jsstring) : Prop := Forall (λ x, x ≠ LT) s.
Definition one_line (s : jsstring) : Prop :=
  Forall (λ x, is_line_terminator x = false) s.
Definition literal (s : jsstring) : Prop := Forall (λ x, x ≠ DOLLAR) s.

(** [p] occurs somewhere in [s]. *)
Fixpoint occurs (p s : jsstring) : bool :=
  starts_with p s || match s with
                     | [] => false
                     | _ :: s' => occurs p s'
                     end.

(** [rewrites open close value s s']: [s'] is [s] where some stretches
    [open ... close] that stay within a line have become
    [open value close], and everything else is as it was. *)
Inductive rewrites (open close value : jsstring) : jsstring → jsstring → Prop :=
| rewrites_nil : rewrites open close value [] []
| rewrites_keep x s s' :
    rewrites open close value s s' →
    rewrites open close value (x :: s) (x :: s')
| rewrites_span inner s s' :
    one_line inner →
    rewrites open close value s s' →
    rewrites open close value (open ++ inner ++ close ++ s)
      (open ++ value ++ close ++ s').

(** One of two texts is the beginning of the other. *)
Definition clash (p q : jsstring) : bool := starts_with p q || starts_with q p.

(** [settled open close value s]: wherever [open.*close] matches in [s],
    what it matches is [open value close] already. *)
Definition settled (open close value s : jsstring) : Prop :=
  ∀ t, t `suffix_of` s → is_Some (match_here open close t) →
       ∃ y, t = open ++ value ++ close ++ y ∧ dotstar_then close y = None.

(** A text that is empty or ends with a line terminator, and one that is
    empty or starts with one. *)
Definition ends_line (a : jsstring) : Prop :=
  a = [] ∨ ∃ a0 nl, a = a0 ++ [nl] ∧ is_line_terminator nl = true.
Definition starts_line (b : jsstring) : Prop :=
  b = [] ∨ ∃ nl b0, b = nl :: b0 ∧ is_line_terminator nl = true.

(** A value that a pass can put in without disturbing any pattern. *)
Definition good_value (v : jsstring) : Prop := plain v ∧ one_line v ∧ literal v.

(** The properties [updateProjectFile] knows, and the passes it makes for a
    record: the name of the property and the value put in. *)
Definition property_names : list jsstring :=
  [str "Version"; str "VersionMajor"; str "VersionMinor"; str "VersionPatch";
   str "VersionSuffix"].

Definition passes (p : ProjectVersion) (g : version_groups)
    : list (jsstring * jsstring) :=
  [(str "Version", version p); (str "VersionMajor", major g);
   (str "VersionMinor", minor g); (str "VersionPatch", patch g)]
  ++ if truthy (prerelease g)
     then [(str "VersionSuffix", template (prerelease g))] else [].

Definition apply_passes (ps : list (jsstring * jsstring)) (content : jsstring)
    : jsstring :=
  foldl (λ c nv, replace_property nv.1 nv.2 c) content ps.

(** The run was marked as failed. *)
Definition failed (evs : list event) : Prop := ∃ message, SetFailed message ∈ evs.

(** The lines of a [MrVersion.props] whose fields are built from the
    groups of the version alone. *)
Definition props_lines (g : version_groups) (sha : option jsstring)
    : list jsstring :=
  [str "<Project>";
   str "  <!-- Generated by Mister.Version -->";
   str "  <PropertyGroup>";
   str "    <Version>" ++ rejoin g ++ str "</Version>";
   str "    <VersionMajor>" ++ major g ++ str "</VersionMajor>";
   str "    <VersionMinor>" ++ minor g ++ str "</VersionMinor>";
   str "    <VersionPatch>" ++ patch g ++ str "</VersionPatch>"]
  ++ match prerelease g with
     | Some pre => [str "    <VersionSuffix>" ++ pre ++ str "</VersionSuffix>"]
     | None => []
     end
  ++ [str "    <AssemblyVersion>" ++ major g ++ [DOT] ++ minor g ++ [DOT]
        ++ patch g ++ str ".0</AssemblyVersion>";
      str "    <FileVersion>" ++ major g ++ [DOT] ++ minor g ++ [DOT]
        ++ patch g ++ str ".0</FileVersion>";
      str "    <InformationalVersion>" ++ rejoin g
        ++ match sha with
           | Some (c :: s) => str "+" ++ take 7 (c :: s)
           | _ => []
           end
        ++ str "</InformationalVersion>";
      str "  </PropertyGroup>";
      str "</Project>";
      []].

(** [adds_only Q m]: [m] leaves the earlier events alone and appends only
    events that satisfy [Q]. *)
Definition adds_only (Q : event → Prop) {A} (m : M A) : Prop :=
  ∀ w, ∃ evs, events (m w).2 = events w ++ evs ∧ Forall Q evs.

(** An event that neither sets an output nor fails the run. *)
Definition quiet (e : event) : Prop :=
  match e with
  | SetOutput _ _ | SetFailed _ => False
  | _ => True
  end.

(** A step that always returns and is quiet. *)
Definition calm (m : M unit) : Prop :=
  (∀ w, (m w).1 = inr tt) ∧ adds_only quiet m.

(** What the lemmas on patterns ask of a property name. *)
Record name_facts (n : jsstring) : Prop := {
  open_plain : plain (n ++ [GT]);
  open_one_line : one_line (n ++ [GT]);
  open_literal : literal (n ++ [GT]);
  close_plain : plain (SLASH :: n ++ [GT]);
  close_one_line : one_line (SLASH :: n ++ [GT]);
  close_literal : literal (SLASH :: n ++ [GT]);
  tags_apart : clash (LT :: n ++ [GT]) (LT :: SLASH :: n ++ [GT]) = false
}.

(** ** The vocabulary of the further properties *)

(** Groups as the version pattern can produce them: three non-empty runs
    of digits and, if there is one, a non-empty prerelease that stays
    within a line. *)
Definition well_formed (g : version_groups) : Prop :=
  (major g ≠ [] ∧ Forall (λ c, is_digit c = true) (major g))
  ∧ (minor g ≠ [] ∧ Forall (λ c, is_digit c = true) (minor g))
  ∧ (patch g ≠ [] ∧ Forall (λ c, is_digit c = true) (patch g))
  ∧ (∀ pre, prerelease g = Some pre →
       pre ≠ [] ∧ Forall (λ c, is_line_terminator c = false) pre).

(** A file name that ends with one of the three project extensions. *)
Definition is_project_file (file : jsstring) : Prop :=
  ∃ stem ext, ext ∈ [str ".csproj"; str ".vbproj"; str ".fsproj"]
              ∧ file = stem ++ ext.

(** The arguments [calculateProjectVersion] hands to [mr-version]. *)
Definition mr_version_args (options : CalculateVersionOptions) : list jsstring :=
  [str "version"; str "--repo"; repositoryPath options;
   str "--project"; projectFile options; str "--json"]
  ++ (if bool_decide (prereleaseType options ≠ [])
         && negb (eqb (prereleaseType options) (str "none"))
      then [str "--prerelease-type"; prereleaseType options] else [])
  ++ (if bool_decide (tagPrefix options ≠ [])
      then [str "--tag-prefix"; tagPrefix options] else [])
  ++ (if bool_decide (forceVersion options ≠ [])
      then [str "--force-version"; forceVersion options] else [])
  ++ (if bool_decide (opt_dependencies options ≠ [])
      then [str "--dependencies"; opt_dependencies options] else [])
  ++ (if bool_decide (configFile options ≠ [])
      then [str "--config-file"; configFile options] else [])
  ++ (if dryRun options then [str "--dry-run"] else []).

(** The environment with another tool behind [exec.getExecOutput]. *)
Definition with_tool (env : Env)
    (tool : jsstring → list jsstring → js_error + ExecOutput) : Env := {|
  getInput := getInput env;
  getBooleanInput := getBooleanInput env;
  cwd := cwd env;
  path_relative := path_relative env;
  path_resolve := path_resolve env;
  path_dirname := path_dirname env;
  path_join := path_join env;
  glob := glob env;
  getExecOutput := tool;
  JSON_parse := JSON_parse env
|}.

(** An option and its value, left out when the value is empty. *)
Definition flag (name value : jsstring) : list jsstring :=
  match value with
  | [] => []
  | _ => [name; value]
  end.

(** A text of white space only. *)
Definition blank (s : jsstring) : Prop := Forall (λ c, is_whitespace c = true) s.

(** The error [calculateProjectVersion] throws for an output it cannot
    use. *)
Definition parse_failure (projectFile cause : jsstring) : js_error :=
  Error (str "Failed to parse mr-version output for " ++ projectFile
         ++ str ": " ++ cause).

(** The path of the [MrVersion.props] next to a project file. *)
Definition props_path (env : Env) (p : ProjectVersion) : jsstring :=
  path_join env (path_dirname env (path p)) (str "MrVersion.props").

(** [confined S m]: [m] leaves the locks alone and changes no file outside
    [S]. *)
Definition confined (S : jsstring → Prop) {A} (m : M A) : Prop :=
  ∀ w, locked (m w).2 = locked w
       ∧ ∀ f, ¬ S f → files (m w).2 !! f = files w !! f.

(** The log line of a failed update. *)
Definition update_failure (p : ProjectVersion) (e : js_error) : jsstring :=
  str "Failed to update project " ++ project p ++ str ": " ++ err_message e.

(** The lines [run] logs before it asks for the versions. *)
Definition run_preamble (found : list jsstring) (incl : bool) : list event :=
  [Info (str "Calculating project versions...");
   Info (str "Found " ++ of_nat (length found) ++ str " project files")]
  ++ (if negb incl
      then [Info (str "Test projects will be excluded from results")]
      else []).

(** What the log gets between the project files and the outputs of a run
    that goes on: the warning for no project file and the line of
    [analyzeResults]. *)
Definition run_notes (found : list jsstring) (results : list ProjectVersion)
    (incl : bool) : list event :=
  (if bool_decide (length found = 0%nat)
   then [Warning (str "No project files found matching the pattern")]
   else [])
  ++ (if negb incl
         && bool_decide (0 < length (filter (λ p, isTestProject p) results))%nat
      then [Info (str "Filtered out "
                  ++ of_nat (length (filter (λ p, isTestProject p) results))
                  ++ str " test project(s)")]
      else []).

(** The five outputs for the whole run, and the five for the version. *)
Definition aggregate_outputs (env : Env) (all changed : list ProjectVersion)
    : list event :=
  [SetOutput (str "projects") (JsonProjects all);
   SetOutput (str "changed-projects") (JsonProjects changed);
   SetOutput (str "has-changes")
     (Text (of_bool (bool_decide (0 < length changed)%nat)));
   SetOutput (str "summary") (Text (generateSummary all changed));
   SetOutput (str "version-map") (JsonVersionMap (createVersionMap env all))].

Definition version_outputs (all : list ProjectVersion) : list event :=
  match all with
  | [] => component_outputs (str "0.1.0") (str "0") (str "1") (str "0") []
  | p :: _ =>
      let parts := version_parts (version p) in
      component_outputs (version p) (major_output parts)
        (minor_output parts) (patch_output parts) (prerelease_output parts)
  end.


(** The last lines of a run that goes on: the job summary, if asked for,
    and the closing line. *)
Definition run_closing (env : Env) (ovi : bool)
    (analysisResult : VersionCalculationResult) (results : list ProjectVersion)
    : list event :=
  let outputFormat := or_else (getInput env (str "output-format")) (str "json") in
  (if ovi
   then [JobSummary ([55357; 56522] ++ str " Version Calculation Results")
           (formatSummary analysisResult outputFormat) outputFormat]
   else [])
  ++ [Info ([9989] ++ str " Analyzed " ++ of_nat (length results)
            ++ str " projects, "
            ++ of_nat (length (changedProjects analysisResult))
            ++ str " with changes")].

(** The error [run] reports for what it catches. *)
Definition run_failure (e : js_error) : event :=
  SetFailed (str "Failed to calculate versions: " ++ err_message e).

(** An event that is a line of the log, and one that is no write. *)
Definition is_info (e : event) : Prop := ∃ message, e = Info message.
Definition no_write (e : event) : Prop :=
  match e with
  | FileWritten _ _ => False
  | _ => True
  end.

(** ** Tactics *)

(** Brings nested concatenations to one shape. *)
Ltac flatten_app :=
  repeat (progress cbn [app] || rewrite <-app_assoc || rewrite <-app_comm_cons).

(** Simplifies the projections of an explicit world. *)
Ltac world_simpl := cbn [files locked events].

(** Closed decidable facts, by evaluation. *)
Ltac decide_closed := apply (bool_decide_unpack _); vm_compute; exact I.

(** ** Properties of the version pattern *)

Section VersionPattern.

Lemma span_spec (p : N → bool) (s a b : jsstring) :
  span p s = (a, b) →
  s = a ++ b ∧ Forall (λ c, p c = true) a ∧ (head b ≫= λ c, Some (p c)) ≠ Some true.
Proof.
  revert a b. induction s as [|c s IH]; intros a b; simpl.
  - intros [= <- <-]. by repeat split.
  - destruct (p c) eqn:Hc.
    + destruct (span p s) as [a' b'] eqn:Hs. intros [= <- <-].
      destruct (IH a' b' eq_refl) as (-> & Ha & Hb).
      repeat split; [by constructor | done].
    + intros [= <- <-]. repeat split; [constructor|]. simpl. by rewrite Hc.
Qed.

Lemma re_digits_spec (s d rest : jsstring) :
  re_digits s = Some (d, rest) →
  s = d ++ rest ∧ d ≠ [] ∧ Forall (λ c, is_digit c = true) d.
Proof.
  unfold re_digits. destruct (span is_digit s) as [a b] eqn:Hs.
  destruct (span_spec _ _ _ _ Hs) as (-> & Ha & _).
  destruct a; [done|]. intros [= <- <-]. by repeat split.
Qed.

Lemma re_char_spec (c : N) (s rest : jsstring) :
  re_char c s = Some rest → s = c :: rest.
Proof.
  destruct s as [|c' s]; simpl; [done|].
  destruct (N.eqb_spec c' c); [|done]. by intros [= <-]; subst.
Qed.

Lemma re_prerelease_spec (s : jsstring) (pre : option jsstring) :
  re_prerelease s = Some pre →
  match pre with
  | None => s = []
  | Some t => s = DASH :: t ∧ t ≠ [] ∧ Forall (λ c, is_line_terminator c = false) t
  end.
Proof.
  destruct s as [|c rest]; simpl.
  - by intros [= <-].
  - destruct (N.eqb_spec c DASH) as [->|]; simpl; [|done].
    case_bool_decide; simpl; [|done].
    destruct (forallb _ rest) eqn:Hall; [|done]. intros [= <-].
    repeat split; [done|]. apply Forall_forall. intros x Hx.
    rewrite forallb_forall in Hall. apply list_elem_of_In, Hall in Hx.
    by destruct (is_line_terminator x).
Qed.

(** What a successful match says about the version and its groups. *)
Lemma version_match_spec (v : jsstring) (g : version_groups) :
  version_match v = Some g →
  v = rejoin g
  ∧ (major g ≠ [] ∧ Forall (λ c, is_digit c = true) (major g))
  ∧ (minor g ≠ [] ∧ Forall (λ c, is_digit c = true) (minor g))
  ∧ (patch g ≠ [] ∧ Forall (λ c, is_digit c = true) (patch g))
  ∧ (∀ pre, prerelease g = Some pre →
       pre ≠ [] ∧ Forall (λ c, is_line_terminator c = false) pre).
Proof.
  unfold version_match. intros H.
  destruct (re_digits v) as [[ma s1]|] eqn:H1; simpl in H; [|done].
  destruct (re_char DOT s1) as [s2|] eqn:H2; simpl in H; [|done].
  destruct (re_digits s2) as [[mi s3]|] eqn:H3; simpl in H; [|done].
  destruct (re_char DOT s3) as [s4|] eqn:H4; simpl in H; [|done].
  destruct (re_digits s4) as [[pa s5]|] eqn:H5; simpl in H; [|done].
  destruct (re_prerelease s5) as [pre|] eqn:H6; simpl in H; [|done].
  injection H as <-.
  apply re_digits_spec in H1 as (-> & ? & ?).
  apply re_char_spec in H2 as ->.
  apply re_digits_spec in H3 as (-> & ? & ?).
  apply re_char_spec in H4 as ->.
  apply re_digits_spec in H5 as (-> & ? & ?).
  apply re_prerelease_spec in H6.
  unfold rejoin; simpl. split_and!; try done.
  - destruct pre as [t|]; [destruct H6 as (-> & _)|subst]; done.
  - intros t [= ->]. by destruct H6 as (_ & ? & ?).
Qed.










End VersionPattern.




(** ** The generated properties file *)

(** C9. For a record whose version matches the pattern, the text of
    [MrVersion.props] depends on the record alone: its [Version] field is
    the three number fields joined by dots, followed by a dash and the
    [VersionSuffix] field exactly when the version has a prerelease, and
    that text is what a write that goes through leaves in the file. *)
Theorem props_file_components (env : Env) (p : ProjectVersion)
    (g : version_groups) :
  version_match (version p) = Some g →
  version p = rejoin g
  ∧ props_content p g = join [LF] (props_lines g (commitSha p))
  ∧ ∀ w, let propsPath :=
           path_join env (path_dirname env (path p)) (str "MrVersion.props") in
         propsPath ∉ locked w →
         writeMrVersionPropsFile env p w =
         (inr tt,
          World (<[propsPath := join [LF] (props_lines g (commitSha p))]> (files w))
                (locked w)
                (events w
                 ++ [FileWritten propsPath (join [LF] (props_lines g (commitSha p)));
                     Info (str "Created MrVersion.props for " ++ project p)])).
Proof.
  intros Hm. destruct (version_match_spec _ _ Hm) as (Hv & _ & _ & _ & Hpre).
  assert (Hc : props_content p g = join [LF] (props_lines g (commitSha p))).
  { unfold props_content, props_lines. rewrite Hv.
    destruct (prerelease g) as [pre|] eqn:Epre.
    - destruct (Hpre pre eq_refl) as [Hne _].
      destruct pre as [|c pre]; [done|].
      destruct (commitSha p) as [[|? ?]|]; cbn [truthy template join app];
        change (str ".") with [DOT]; by flatten_app.
    - destruct (commitSha p) as [[|? ?]|]; cbn [truthy template join app];
        change (str ".") with [DOT]; by flatten_app. }
  split_and!; [done..|]. intros w propsPath Hfree.
  unfold writeMrVersionPropsFile. rewrite Hm. fold propsPath. rewrite Hc.
  unfold mbind, M_bind, writeFile, info, emit.
  rewrite bool_decide_false by done. cbn [files locked events].
  by rewrite <-app_assoc.
Qed.

Lemma props_file_components_witness :
  props_content (Demo.record "A" "/repo/src/A/A.csproj" "1.2.0-beta.1" true)
    (VersionGroups (str "1") (str "2") (str "0") (Some (str "beta.1")))
  = join [LF] (props_lines
      (VersionGroups (str "1") (str "2") (str "0") (Some (str "beta.1"))) None).
Proof.
  exact (proj1 (proj2 (props_file_components (Demo.env [] [] [])
    (Demo.record "A" "/repo/src/A/A.csproj" "1.2.0-beta.1" true) _ eq_refl))).
Defined.

(** ** The aggregator *)

Section Aggregator.

Lemma selects_filter {A} (P : A → Prop) `{!∀ x, Decision (P x)} (l : list A) :
  selects P l (filter P l).
Proof.
  induction l as [|x l IH]; [constructor|].
  destruct (decide (P x)) as [Hx|Hx].
  - rewrite filter_cons_True by done. by constructor.
  - rewrite filter_cons_False by done. by constructor.
Qed.

(** [selects] leaves no choice: it determines the selected list. *)
Lemma selects_unique {A} (P : A → Prop) (l k k' : list A) :
  selects P l k → selects P l k' → k = k'.
Proof.
  intros H. revert k'. induction H as [|x l k Hx _ IH|x l k Hx _ IH];
    intros k' H'; inversion H'; subst; try done.
  - f_equal. by apply IH.
  - by apply IH.
Qed.

Lemma selects_sublist {A} (P : A → Prop) (l k : list A) :
  selects P l k → k `sublist_of` l ∧ Forall P k.
Proof.
  induction 1 as [|x l k Hx _ [IH1 IH2]|x l k Hx _ [IH1 IH2]].
  - split; [done|constructor].
  - split; [by apply sublist_skip|by constructor].
  - split; [by apply sublist_cons|done].
Qed.

End Aggregator.

(** C4. Whatever the records and the flag, [analyzeResults] returns; its
    project list is the input (without the test projects unless they are
    included), its changed projects are exactly the records of that list
    with [versionChanged], each once and in the list's order, and
    [hasChanges] holds exactly when there is one. *)
Theorem analyzeResults_changed (results : list ProjectVersion)
    (includeTestProjects : bool) (w : world) :
  ∃ r w',
    analyzeResults results includeTestProjects w = (inr r, w')
    ∧ (if includeTestProjects then projects r = results
       else selects (λ p, isTestProject p = false) results (projects r))
    ∧ selects (λ p, versionChanged p = true) (projects r) (changedProjects r)
    ∧ (hasChanges r = true ↔ changedProjects r ≠ []).
Proof.
  unfold analyzeResults.
  set (all := if includeTestProjects then results
              else filter (λ p, negb (isTestProject p)) results).
  set (note := if negb includeTestProjects && _ then _ else _).
  assert (Hnote : ∃ w', note w = (inr tt, w')).
  { subst note. destruct (_ && _); by eexists. }
  destruct Hnote as [w' Hnote]. eexists _, w'.
  unfold mbind, M_bind. rewrite Hnote. split; [reflexivity|]. simpl.
  split_and!.
  - subst all. destruct includeTestProjects; [done|].
    assert (Hsel : selects (λ p, negb (isTestProject p)) results
                     (filter (λ p, negb (isTestProject p)) results))
      by apply selects_filter.
    clear -Hsel. induction Hsel; constructor; try done.
    + by destruct (isTestProject x).
    + by destruct (isTestProject x).
  - assert (Hsel : selects (λ p, versionChanged p) all
                     (filter (λ p, versionChanged p) all))
      by apply selects_filter.
    clear -Hsel. induction Hsel; constructor; try done.
    + by destruct (versionChanged x).
    + by destruct (versionChanged x).
  - rewrite bool_decide_eq_true.
    destruct (filter _ all); simpl; split; (done || lia).
Qed.

(** ** The version map *)

Lemma createVersionMap_last (env : Env) (l : list ProjectVersion)
    (key : jsstring) :
  createVersionMap env l !! key =
  version <$> last (filter (λ p, project p = key
                                 ∨ path_relative env (cwd env) (path p) = key) l).
Proof.
  unfold createVersionMap. induction l as [|p l IH] using rev_ind; [done|].
  rewrite foldl_snoc, filter_app. unfold add_to_version_map at 1.
  destruct (decide (path_relative env (cwd env) (path p) = key)) as [Hr|Hr].
  - rewrite Hr, lookup_insert_eq.
    rewrite filter_cons_True by by right. by rewrite filter_nil, last_snoc.
  - rewrite lookup_insert_ne by done.
    destruct (decide (project p = key)) as [Hn|Hn].
    + rewrite Hn, lookup_insert_eq.
      rewrite filter_cons_True by by left. by rewrite filter_nil, last_snoc.
    + rewrite lookup_insert_ne by done.
      rewrite filter_cons_False by tauto. by rewrite filter_nil, app_nil_r.
Qed.

(** One more record adds its two keys, over whatever they held. *)
Lemma createVersionMap_snoc (env : Env) (l : list ProjectVersion)
    (p : ProjectVersion) :
  createVersionMap env (l ++ [p]) =
  <[path_relative env (cwd env) (path p) := version p]>
    (<[project p := version p]> (createVersionMap env l)).
Proof. unfold createVersionMap. by rewrite foldl_snoc. Qed.

(** C3. The version map is a function of the record sequence alone (and of
    the working directory): it is empty for no record, one more record
    puts its version under its name and under its relative path, over
    whatever these keys held; so a key is in the map exactly when it is
    the name or the relative path of a record, and it then holds the
    version of the last such record. *)
Theorem createVersionMap_lookup (env : Env) :
  createVersionMap env [] = ∅
  ∧ (∀ l p,
       createVersionMap env (l ++ [p]) =
       <[path_relative env (cwd env) (path p) := version p]>
         (<[project p := version p]> (createVersionMap env l)))
  ∧ (∀ l key,
       createVersionMap env l !! key =
       version <$> last (filter (λ p, project p = key
                                      ∨ path_relative env (cwd env) (path p) = key)
                           l)).
Proof.
  split_and!; [done|apply createVersionMap_snoc|apply createVersionMap_last].
Qed.

(** ** Failure containment in [updateProjects] *)

Section Containment.

Variable env : Env.

Lemma for_each_fold {A} (body : A → M unit) (l : list A) (w : world) :
  (∀ x w, (body x w).1 = inr tt) →
  for_each l body w = (inr tt, foldl (λ w x, (body x w).2) w l).
Proof.
  intros Hbody. revert w. induction l as [|x l IH]; intros w; [done|].
  cbn [for_each foldl]. unfold mbind, M_bind.
  specialize (Hbody x w). destruct (body x w) as [[e|[]] w1]; [done|].
  apply IH.
Qed.

Lemma update_project_outcome (up wr : bool) (p : ProjectVersion) (w : world) :
  update_project env up wr p w =
  match update_attempt env up wr p w with
  | (inr _, w') => (inr tt, w')
  | (inl e, w') =>
      (inr tt, warned w' (str "Failed to update project " ++ project p
                          ++ str ": " ++ err_message e))
  end.
Proof.
  unfold update_project, try_catch.
  by destruct (update_attempt env up wr p w) as [[e|[]] w'].
Qed.

Lemma update_project_returns (up wr : bool) (p : ProjectVersion) (w : world) :
  (update_project env up wr p w).1 = inr tt.
Proof.
  rewrite update_project_outcome.
  by destruct (update_attempt env up wr p w) as [[e|[]] w'].
Qed.

End Containment.

(** C7. [updateProjects] never throws: it is the fold of the loop body over
    all the records, each starting in the world the previous one left; and
    where the attempt for a record throws, the body ends normally in the
    world of the throw plus one warning that names the project and carries
    the error's message. *)
Theorem updateProjects_contains_failures (env : Env) (up wr : bool) :
  (∀ ps w,
     updateProjects env ps up wr w =
     (inr tt, foldl (λ w p, (update_project env up wr p w).2) w ps))
  ∧ (∀ p w,
       match update_attempt env up wr p w with
       | (inr _, w') => update_project env up wr p w = (inr tt, w')
       | (inl e, w') =>
           update_project env up wr p w =
           (inr tt, warned w' (str "Failed to update project " ++ project p
                               ++ str ": " ++ err_message e))
       end).
Proof.
  split.
  - intros ps w. apply for_each_fold. intros p w'.
    apply update_project_returns.
  - intros p w. rewrite update_project_outcome.
    by destruct (update_attempt env up wr p w) as [[e|[]] w'].
Qed.

(** ** A version that does not match the pattern *)

Section Unparsable.

Variable env : Env.





End Unparsable.



(** ** What a computation adds to the log *)

Section Effects.

Context (Q : event → Prop).

Lemma adds_only_ret {A} (a : A) : adds_only Q (mret a).
Proof. intros w. exists []. by rewrite app_nil_r. Qed.

Lemma adds_only_throw {A} (e : js_error) : adds_only Q (@throw A e).
Proof. intros w. exists []. by rewrite app_nil_r. Qed.

Lemma adds_only_lift {A} (r : js_error + A) : adds_only Q (lift r).
Proof. destruct r; [apply adds_only_throw|apply adds_only_ret]. Qed.

Lemma adds_only_emit (e : event) : Q e → adds_only Q (emit e).
Proof. intros He w. exists [e]. split; [done|]. by constructor. Qed.

Lemma adds_only_bind {A B} (m : M A) (k : A → M B) :
  adds_only Q m → (∀ a, adds_only Q (k a)) → adds_only Q (m ≫= k).
Proof.
  intros Hm Hk w. unfold mbind, M_bind.
  destruct (Hm w) as (evs & E & F). destruct (m w) as [[e|a] w1].
  - by exists evs.
  - destruct (Hk a w1) as (evs' & E' & F'). exists (evs ++ evs').
    simpl in E. rewrite E', E, app_assoc. split; [done|by apply Forall_app].
Qed.

Lemma adds_only_try_catch {A} (m : M A) (h : js_error → M A) :
  adds_only Q m → (∀ e, adds_only Q (h e)) → adds_only Q (try_catch m h).
Proof.
  intros Hm Hh w. unfold try_catch.
  destruct (Hm w) as (evs & E & F). destruct (m w) as [[e|a] w1].
  - destruct (Hh e w1) as (evs' & E' & F'). exists (evs ++ evs').
    simpl in E. rewrite E', E, app_assoc. split; [done|by apply Forall_app].
  - by exists evs.
Qed.

Lemma adds_only_for_each {A} (l : list A) (body : A → M unit) :
  (∀ x, adds_only Q (body x)) → adds_only Q (for_each l body).
Proof.
  intros Hbody. induction l as [|x l IH]; [apply adds_only_ret|].
  apply adds_only_bind; [done|]. by intros _.
Qed.

Lemma adds_only_readFile (file : jsstring) : adds_only Q (readFile file).
Proof.
  intros w. exists []. rewrite app_nil_r. unfold readFile.
  by destruct (files w !! file).
Qed.

Lemma adds_only_writeFile (file content : jsstring) :
  Q (FileWritten file content) → adds_only Q (writeFile file content).
Proof.
  intros HQ w. unfold writeFile. case_bool_decide.
  - exists []. by rewrite app_nil_r.
  - exists [FileWritten file content]. split; [done|]. by constructor.
Qed.

End Effects.

Section QuietUpdates.

Variable env : Env.

Lemma updateProjectFile_quiet (p : ProjectVersion) :
  adds_only quiet (updateProjectFile p).
Proof.
  unfold updateProjectFile. apply adds_only_bind; [apply adds_only_readFile|].
  intros content. destruct (version_match (version p)) as [g|].
  - destruct (negb _); [|apply adds_only_ret].
    apply adds_only_bind; [by apply adds_only_writeFile|].
    intros _. by apply adds_only_emit.
  - by apply adds_only_emit.
Qed.

Lemma writeMrVersionPropsFile_quiet (p : ProjectVersion) :
  adds_only quiet (writeMrVersionPropsFile env p).
Proof.
  unfold writeMrVersionPropsFile. destruct (version_match (version p)) as [g|].
  - apply adds_only_bind; [by apply adds_only_writeFile|].
    intros _. by apply adds_only_emit.
  - by apply adds_only_emit.
Qed.

Lemma updateProjects_quiet (ps : list ProjectVersion) (up wr : bool) :
  adds_only quiet (updateProjects env ps up wr).
Proof.
  apply adds_only_for_each. intros p. apply adds_only_try_catch.
  - apply adds_only_bind.
    + destruct up; [apply updateProjectFile_quiet|apply adds_only_ret].
    + intros _.
      destruct wr; [apply writeMrVersionPropsFile_quiet|apply adds_only_ret].
  - intros e. by apply adds_only_emit.
Qed.

Lemma updateProjects_returns (ps : list ProjectVersion) (up wr : bool)
    (w : world) :
  (updateProjects env ps up wr w).1 = inr tt.
Proof.
  unfold updateProjects. rewrite for_each_fold; [done|].
  intros p w'. apply update_project_returns.
Qed.

End QuietUpdates.

Section Outputs.

Lemma output_of_app (name : jsstring) (evs evs' : list event) :
  output_of name (evs ++ evs') =
  match output_of name evs' with
  | Some v => Some v
  | None => output_of name evs
  end.
Proof.
  unfold output_of. rewrite omap_app.
  destruct (omap _ evs') as [|x l] using rev_ind.
  - by rewrite app_nil_r.
  - by rewrite app_assoc, !last_snoc.
Qed.

Lemma output_of_quiet (name : jsstring) (evs : list event) :
  Forall quiet evs → output_of name evs = None.
Proof.
  unfold output_of. induction 1 as [|e evs He _ IH]; [done|].
  destruct e; simpl; try done.
Qed.

Lemma not_failed_quiet (evs : list event) : Forall quiet evs → ¬ failed evs.
Proof.
  intros Hq [m Hm]. rewrite Forall_forall in Hq. by apply Hq in Hm.
Qed.

End Outputs.

(** ** The run *)

Section Run.

Variable env : Env.

Lemma ret_bind {A B} (a : A) (k : A → M B) : mret a ≫= k = k a.
Proof. reflexivity. Qed.

Lemma emit_bind {B} (e : event) (k : unit → M B) (w : world) :
  (emit e ≫= k) w = k tt (World (files w) (locked w) (events w ++ [e])).
Proof. reflexivity. Qed.

Lemma bind_peel {A B} (m : M A) (k : A → M B) (w w1 : world) (a : A) :
  m w = (inr a, w1) → (m ≫= k) w = k a w1.
Proof. intros H. unfold mbind, M_bind. by rewrite H. Qed.

(** A step that returns and only adds quiet events. *)
Lemma quiet_step (m : M unit) (w : world) :
  (∀ w, (m w).1 = inr tt) → adds_only quiet m →
  ∃ w1 evs, m w = (inr tt, w1) ∧ events w1 = events w ++ evs ∧ Forall quiet evs.
Proof.
  intros Hret Hadd. specialize (Hret w). destruct (Hadd w) as (evs & E & F).
  destruct (m w) as [[e|[]] w1]; [done|]. by exists w1, evs.
Qed.

Lemma if_emit_bind {B} (b : bool) (e : event) (k : unit → M B) (w : world) :
  ((if b then emit e else mret tt) ≫= k) w =
  k tt (World (files w) (locked w) (events w ++ if b then [e] else [])).
Proof. destruct b; [done|]. destruct w. by rewrite ret_bind, app_nil_r. Qed.

Lemma calm_ret : calm (mret tt).
Proof. split; [done|apply adds_only_ret]. Qed.

Lemma calm_emit (e : event) : quiet e → calm (emit e).
Proof. split; [done|by apply adds_only_emit]. Qed.

Lemma calm_bind (m : M unit) (k : unit → M unit) :
  calm m → (∀ u, calm (k u)) → calm (m ≫= k).
Proof.
  intros [Hr Ha] Hk. split.
  - intros w. unfold mbind, M_bind. specialize (Hr w).
    destruct (m w) as [[e|a] w1]; [done|]. apply Hk.
  - apply adds_only_bind; [done|]. intros a. apply Hk.
Qed.

Lemma calm_updateProjects (ps : list ProjectVersion) (up wr : bool) :
  calm (updateProjects env ps up wr).
Proof.
  split; [intros w; apply updateProjects_returns|apply updateProjects_quiet].
Qed.

Lemma calm_step (m : M unit) (w : world) :
  calm m →
  ∃ w1 evs, m w = (inr tt, w1) ∧ events w1 = events w ++ evs ∧ Forall quiet evs.
Proof. intros [Hret Hadd]. by apply quiet_step. Qed.

Lemma analyzeResults_eq (results : list ProjectVersion) (incl : bool)
    (w : world) :
  let all := if incl then results
             else filter (λ p, negb (isTestProject p)) results in
  let changed := filter (λ p, versionChanged p) all in
  let testProjectCount := length (filter (λ p, isTestProject p) results) in
  analyzeResults results incl w =
  (inr {| projects := all;
          changedProjects := changed;
          hasChanges := bool_decide (0 < length changed)%nat;
          summary := generateSummary all changed |},
   World (files w) (locked w)
     (events w ++
      if negb incl && bool_decide (0 < testProjectCount)%nat
      then [Info (str "Filtered out " ++ of_nat testProjectCount
                  ++ str " test project(s)")]
      else [])).
Proof.
  intros all changed n. unfold analyzeResults, info.
  by rewrite if_emit_bind.
Qed.

Lemma set_version_components_events (all : list ProjectVersion) (w : world) :
  set_version_components all w =
  (inr tt,
   World (files w) (locked w)
     (events w ++
      match all with
      | [] => component_outputs (str "0.1.0") (str "0") (str "1") (str "0") []
      | p :: _ =>
          let parts := version_parts (version p) in
          component_outputs (version p) (major_output parts)
            (minor_output parts) (patch_output parts) (prerelease_output parts)
      end)).
Proof.
  destruct all as [|p all]; unfold set_version_components, component_outputs;
    unfold mbind, M_bind, setOutput, emit; cbn [files locked events];
    by rewrite <-!app_assoc.
Qed.

#[local] Opaque set_version_components updateProjects str.

Lemma run_outputs (w : world) (fail upd wr ovi dry incl : bool)
    (found : list jsstring) (results : list ProjectVersion) :
  getBooleanInput env (str "fail-on-no-changes") = inr fail →
  getBooleanInput env (str "update-project-properties") = inr upd →
  getBooleanInput env (str "write-mrversion-props") = inr wr →
  getBooleanInput env (str "output-version-information") = inr ovi →
  getBooleanInput env (str "dry-run") = inr dry →
  getBooleanInput env (str "include-test-projects") = inr incl →
  (∀ w, findProjectFiles env
          (or_else (getInput env (str "projects")) (str "**/*.csproj"))
          (or_else (getInput env (str "repository-path")) (str ".")) w
        = (inr found, w)) →
  (∀ w, map_m (λ f, calculateProjectVersion env (run_options env dry f)) found w
        = (inr results, w)) →
  let all := if incl then results
             else filter (λ p, negb (isTestProject p)) results in
  let changed := filter (λ p, versionChanged p) all in
  (fail = true → changed ≠ []) →
  ∃ w' before after,
    run env w = (inr tt, w')
    ∧ Forall quiet before ∧ Forall quiet after
    ∧ events w' =
      events w ++ before
      ++ [SetOutput (str "projects") (JsonProjects all);
          SetOutput (str "changed-projects") (JsonProjects changed);
          SetOutput (str "has-changes")
            (Text (of_bool (bool_decide (0 < length changed)%nat)));
          SetOutput (str "summary") (Text (generateSummary all changed));
          SetOutput (str "version-map")
            (JsonVersionMap (createVersionMap env all))]
      ++ match all with
         | [] => component_outputs (str "0.1.0") (str "0") (str "1") (str "0") []
         | p :: _ =>
             let parts := version_parts (version p) in
             component_outputs (version p) (major_output parts)
               (minor_output parts) (patch_output parts) (prerelease_output parts)
         end
      ++ after.
Proof.
  intros Hfail Hupd Hwr Hovi Hdry Hincl Hfound Hres all changed Hgo.
  assert (Hc1 : bool_decide (length found = 0%nat) && fail = false).
  { destruct fail; [|by rewrite andb_false_r]. rewrite andb_true_r.
    apply bool_decide_eq_false. intros Hlen.
    destruct found; [|done]. specialize (Hres w). injection Hres as <-.
    apply Hgo; [done|]. subst changed all. by destruct incl. }
  assert (Hc2 : fail && negb (bool_decide (0 < length changed)%nat) = false).
  { destruct fail; [|done]. specialize (Hgo eq_refl).
    rewrite bool_decide_true; [done|]. destruct changed; [done|simpl; lia]. }
  unfold run, try_catch.
  rewrite Hfail, Hupd, Hwr, Hovi, Hdry, Hincl. cbn [lift].
  rewrite !ret_bind. unfold info, warning, setOutput.
  rewrite emit_bind, (bind_peel _ _ _ _ _ (Hfound _)); world_simpl.
  rewrite emit_bind; world_simpl. rewrite if_emit_bind, Hc1; world_simpl.
  rewrite if_emit_bind; world_simpl.
  unfold run_options in Hres. rewrite (bind_peel _ _ _ _ _ (Hres _)).
  rewrite (bind_peel _ _ _ _ _ (analyzeResults_eq _ _ _)); world_simpl.
  cbn [hasChanges projects changedProjects summary].
  fold all. fold changed. rewrite Hc2.
  do 5 (rewrite emit_bind; world_simpl).
  rewrite (bind_peel _ _ _ _ _ (set_version_components_events _ _)); world_simpl.
  match goal with
  | |- context [ let (_, _) := ?tail ?w2 in _ ] =>
      destruct (calm_step tail w2) as (w3 & after & E & Hev & Hq)
  end.
  { apply calm_bind.
    - destruct (upd || wr); [|apply calm_ret].
      destruct dry; [by apply calm_emit|apply calm_updateProjects].
    - intros []. apply calm_bind.
      + destruct ovi; [by apply calm_emit|apply calm_ret].
      + intros []. by apply calm_emit. }
  rewrite E.
  exists w3,
    ([Info (str "Calculating project versions...");
      Info (str "Found " ++ of_nat (length found) ++ str " project files")]
     ++ (if negb incl
         then [Info (str "Test projects will be excluded from results")]
         else [])
     ++ (if bool_decide (length found = 0%nat)
         then [Warning (str "No project files found matching the pattern")]
         else [])
     ++ (if negb incl
            && bool_decide (0 < length (filter (λ p, isTestProject p) results))%nat
         then [Info (str "Filtered out "
                     ++ of_nat (length (filter (λ p, isTestProject p) results))
                     ++ str " test project(s)")]
         else [])), after.
  split; [reflexivity|]. split; [|split; [exact Hq|]].
  - apply Forall_app_2; [by repeat constructor|].
    apply Forall_app_2; [by destruct (negb incl); repeat constructor|].
    apply Forall_app_2; [by destruct (bool_decide _); repeat constructor|].
    by destruct (negb incl && _); repeat constructor.
  - rewrite Hev. cbn [events]. rewrite <-!app_assoc. reflexivity.
Qed.

#[local] Transparent set_version_components updateProjects str.

End Run.

Section RunOutputs.

Variable env : Env.

Lemma output_of_run (name : jsstring) (before outs comps after : list event) :
  Forall quiet before → Forall quiet after →
  output_of name (before ++ outs ++ comps ++ after) =
  match output_of name comps with
  | Some v => Some v
  | None => output_of name outs
  end.
Proof.
  intros Hb Ha. rewrite !output_of_app, (output_of_quiet _ after) by done.
  destruct (output_of name comps); [done|].
  destruct (output_of name outs); [done|]. by apply output_of_quiet.
Qed.

Lemma not_failed_app (evs evs' : list event) :
  ¬ failed evs → ¬ failed evs' → ¬ failed (evs ++ evs').
Proof.
  intros H1 H2 [m Hm]. apply elem_of_app in Hm as [Hm|Hm];
    [apply H1|apply H2]; by exists m.
Qed.

Lemma not_failed_outputs (evs : list event) :
  Forall (λ e, ∃ n v, e = SetOutput n v) evs → ¬ failed evs.
Proof.
  intros Hall [m Hm]. rewrite Forall_forall in Hall.
  by destruct (Hall _ Hm) as (n & v & ?).
Qed.

End RunOutputs.

(** C8. With no project file found and fail-on-no-changes off, [run]
    returns without marking the run as failed, the project list it puts
    out is empty, and the component outputs are 0.1.0, 0, 1, 0 and the
    empty string. *)
Theorem run_without_manifests (env : Env) (w : world)
    (upd wr ovi dry incl : bool) :
  getBooleanInput env (str "fail-on-no-changes") = inr false →
  getBooleanInput env (str "update-project-properties") = inr upd →
  getBooleanInput env (str "write-mrversion-props") = inr wr →
  getBooleanInput env (str "output-version-information") = inr ovi →
  getBooleanInput env (str "dry-run") = inr dry →
  getBooleanInput env (str "include-test-projects") = inr incl →
  (∀ w, findProjectFiles env
          (or_else (getInput env (str "projects")) (str "**/*.csproj"))
          (or_else (getInput env (str "repository-path")) (str ".")) w
        = (inr [], w)) →
  ∃ w' added,
    run env w = (inr tt, w')
    ∧ events w' = events w ++ added
    ∧ ¬ failed added
    ∧ output_of (str "projects") added = Some (JsonProjects [])
    ∧ output_of (str "version") added = Some (Text (str "0.1.0"))
    ∧ output_of (str "major") added = Some (Text (str "0"))
    ∧ output_of (str "minor") added = Some (Text (str "1"))
    ∧ output_of (str "patch") added = Some (Text (str "0"))
    ∧ output_of (str "prerelease") added = Some (Text []).
Proof.
  intros Hfail Hupd Hwr Hovi Hdry Hincl Hfound.
  destruct (run_outputs env w false upd wr ovi dry incl [] []
              Hfail Hupd Hwr Hovi Hdry Hincl Hfound)
    as (w' & before & after & Hrun & Hb & Ha & Hev); [done..|].
  assert (Hall : (if incl then [] else
                  filter (λ p, negb (isTestProject p)) []) = @nil ProjectVersion)
    by by destruct incl.
  rewrite Hall in Hev. clear Hall.
  eexists w', _. split; [exact Hrun|]. split; [exact Hev|].
  split.
  - repeat apply not_failed_app; try by apply not_failed_quiet.
    all: apply not_failed_outputs; repeat constructor; by eexists _, _.
  - by rewrite !output_of_run by done.
Qed.

Lemma run_without_manifests_witness :
  ∃ w' added,
    run (Demo.env [] [] []) Demo.empty_world = (inr tt, w')
    ∧ events w' = events Demo.empty_world ++ added
    ∧ ¬ failed added
    ∧ output_of (str "projects") added = Some (JsonProjects [])
    ∧ output_of (str "version") added = Some (Text (str "0.1.0"))
    ∧ output_of (str "major") added = Some (Text (str "0"))
    ∧ output_of (str "minor") added = Some (Text (str "1"))
    ∧ output_of (str "patch") added = Some (Text (str "0"))
    ∧ output_of (str "prerelease") added = Some (Text []).
Proof.
  apply (run_without_manifests (Demo.env [] [] []) Demo.empty_world
           false false false false false); reflexivity.
Defined.




(** The outputs follow the first project of the list, changed or not. *)
Example run_reports_first_project :
  let a := Demo.record "A" "/repo/src/A/A.csproj" "1.2.0" true in
  let b := Demo.record "B" "/repo/src/B/B.csproj" "2.0.0" false in
  let evs := events (run (Demo.env [] [path b; path a] [(path a, a); (path b, b)])
                       Demo.empty_world).2 in
  output_of (str "changed-projects") evs = Some (JsonProjects [a])
  ∧ output_of (str "version") evs = Some (Text (str "2.0.0")).
Proof. split; reflexivity. Qed.

(** ** The global replace *)

Section Scan.

Lemma starts_with_app (p t : jsstring) : starts_with p (p ++ t) = true.
Proof. induction p as [|a p IH]; [done|]. simpl. by rewrite N.eqb_refl. Qed.

Lemma starts_with_inv (p s : jsstring) :
  starts_with p s = true → s = p ++ drop (length p) s.
Proof.
  revert s. induction p as [|a p IH]; intros s; [done|].
  destruct s as [|b s]; [done|]. simpl.
  destruct (N.eqb_spec a b) as [->|]; [|done]. simpl. intros H.
  f_equal. by apply IH.
Qed.

Lemma starts_with_head (a b : N) (p s : jsstring) :
  a ≠ b → starts_with (a :: p) (b :: s) = false.
Proof. intros H. simpl. by destruct (N.eqb_spec a b). Qed.

Lemma expand_plain (repl matched before after : jsstring) :
  Forall (λ x, x ≠ DOLLAR) repl → expand repl matched before after = repl.
Proof.
  induction 1 as [|x repl Hx _ IH]; [done|]. cbn [expand].
  destruct (N.eqb_spec x DOLLAR); [done|]. cbn [negb]. by rewrite IH.
Qed.

Variables open close repl : jsstring.

Lemma replace_from_skip (before : jsstring) (n : nat) (s : jsstring) :
  (n ≤ length s)%nat →
  replace_from open close repl before n s =
  replace_from open close repl (before ++ take n s) O (drop n s).
Proof.
  revert before n. induction s as [|x s IH]; intros before n Hn.
  - destruct n; [|simpl in Hn; lia]. by rewrite app_nil_r.
  - destruct n as [|k]; [by rewrite app_nil_r|].
    cbn [replace_from take drop]. rewrite IH by (simpl in Hn; lia).
    by rewrite <-app_assoc.
Qed.

Lemma dotstar_then_bound (s : jsstring) (n : nat) :
  dotstar_then close s = Some n → (length close ≤ n ≤ length s)%nat.
Proof.
  revert n. induction s as [|x s IH]; intros n; cbn [dotstar_then].
  - destruct (starts_with close []) eqn:Hc; [|done]. intros [= <-].
    apply starts_with_inv in Hc. by destruct close.
  - destruct (if is_line_terminator x then None else dotstar_then close s)
      as [k|] eqn:Hk.
    + destruct (is_line_terminator x); [done|]. intros [= <-].
      apply IH in Hk. simpl. lia.
    + destruct (starts_with close (x :: s)) eqn:Hc; [|done]. intros [= <-].
      apply starts_with_inv in Hc. split; [done|].
      apply (f_equal length) in Hc. rewrite length_app in Hc. lia.
Qed.

Lemma match_here_bound (s : jsstring) (n : nat) :
  match_here open close s = Some n →
  (length open + length close ≤ n ≤ length s)%nat.
Proof.
  unfold match_here. destruct (starts_with open s) eqn:Ho; [|done].
  destruct (dotstar_then close _) as [k|] eqn:Hk; [|done]. intros [= <-].
  apply dotstar_then_bound in Hk. rewrite length_drop in Hk.
  apply starts_with_inv in Ho. apply (f_equal length) in Ho.
  rewrite length_app, length_drop in Ho. lia.
Qed.

Hypothesis repl_plain : Forall (λ x, x ≠ DOLLAR) repl.

Lemma replace_from_before (before before' : jsstring) (n : nat) (s : jsstring) :
  replace_from open close repl before n s =
  replace_from open close repl before' n s.
Proof.
  revert before before' n. induction s as [|x s IH]; intros b b' n; [done|].
  cbn [replace_from]. destruct n as [|k]; [|apply IH].
  destruct (match_here open close (x :: s)) as [[|k]|].
  - f_equal. apply IH.
  - rewrite !expand_plain by done. f_equal. apply IH.
  - f_equal. apply IH.
Qed.

Lemma replace_all_nil : replace_all open close repl [] = [].
Proof. done. Qed.

(** No match where the scan stands: the code unit is kept. *)
Lemma replace_all_keep (x : N) (s : jsstring) :
  match_here open close (x :: s) = None →
  replace_all open close repl (x :: s) = x :: replace_all open close repl s.
Proof.
  intros H. unfold replace_all. cbn [replace_from]. rewrite H.
  f_equal. apply replace_from_before.
Qed.

(** A match where the scan stands: it is replaced and the scan goes on
    behind it. *)
Lemma replace_all_hit (s : jsstring) (n : nat) :
  open ≠ [] → match_here open close s = Some n →
  replace_all open close repl s =
  repl ++ replace_all open close repl (drop n s).
Proof.
  intros Ho H. pose proof (match_here_bound _ _ H) as Hn.
  destruct n as [|k]; [destruct open; [done|simpl in Hn; lia]|].
  destruct s as [|x s]; [simpl in Hn; lia|].
  unfold replace_all. cbn [replace_from]. rewrite H.
  rewrite expand_plain by done. f_equal.
  rewrite replace_from_skip by (simpl in Hn; lia).
  apply replace_from_before.
Qed.

End Scan.

(** *** One pattern [<Name>.*</Name>] *)

Lemma suffix_cons_cases {A} (t l : list A) (a : A) :
  t `suffix_of` a :: l → t = a :: l ∨ t `suffix_of` l.
Proof.
  intros [[|b k] Hk]; [by left|right]. injection Hk as _ ->. by exists k.
Qed.

Lemma clash_free_sym (p q : jsstring) : clash p q = clash q p.
Proof. unfold clash. apply orb_comm. Qed.

Lemma settled_suffix (open close value s t : jsstring) :
  settled open close value s → t `suffix_of` s → settled open close value t.
Proof. intros Hs Ht u Hu. apply Hs. by etrans. Qed.

Lemma clash_free (p q t : jsstring) :
  clash p q = false → starts_with p (q ++ t) = false.
Proof.
  revert q. induction p as [|a p IH]; intros q; [done|].
  destruct q as [|b q]; [done|]. unfold clash. cbn [app starts_with].
  rewrite (N.eqb_sym b a). destruct (a =? b); [|done]. cbn [andb].
  apply IH.
Qed.

Lemma starts_with_line (p u : jsstring) (a : N) (t : jsstring) :
  one_line p → is_line_terminator a = true →
  starts_with p (u ++ a :: t) = starts_with p u.
Proof.
  intros Hp Ha. revert u. induction Hp as [|b p Hb _ IH]; intros u; [done|].
  destruct u as [|c u]; cbn [app starts_with].
  - destruct (N.eqb_spec b a) as [->|]; [congruence|done].
  - by rewrite IH.
Qed.

Lemma dotstar_line_end (p u : jsstring) (a : N) (t : jsstring) :
  one_line p → is_line_terminator a = true →
  dotstar_then p (u ++ a :: t) = dotstar_then p u.
Proof.
  intros Hp Ha. induction u as [|b u IH]; cbn [app dotstar_then].
  - rewrite Ha. pose proof (starts_with_line p [] a t Hp Ha) as Hs.
    cbn [app] in Hs. by rewrite Hs.
  - rewrite IH. change (b :: u ++ a :: t) with ((b :: u) ++ a :: t).
    by rewrite starts_with_line.
Qed.

Lemma match_here_other (oq close : jsstring) (a : N) (s : jsstring) :
  a ≠ LT → match_here (LT :: oq) close (a :: s) = None.
Proof.
  intros Ha. unfold match_here.
  by rewrite starts_with_head.
Qed.

Section Close.

(** The closing text: it starts with [<], has no other [<] and no line
    terminator. *)
Variable cq : jsstring.
Hypothesis cq_plain : plain cq.
Hypothesis cq_line : one_line cq.

Local Abbreviation close := (LT :: cq).

Lemma dotstar_plain (q t : jsstring) :
  plain q → one_line q →
  dotstar_then close (q ++ t) = (λ k, length q + k)%nat <$> dotstar_then close t.
Proof.
  intros Hp Hl. induction Hp as [|x q Hx _ IH];
    [cbn [app]; by destruct (dotstar_then _ t)|].
  inversion Hl as [|? ? Hnl Hl']; subst. cbn [app dotstar_then].
  rewrite Hnl, IH by done. destruct (dotstar_then close t) as [k|]; [done|].
  cbn [fmap option_fmap option_map].
  by rewrite starts_with_head.
Qed.

Lemma dotstar_line (x t : jsstring) (k : nat) :
  one_line x → dotstar_then close t = Some k →
  dotstar_then close (x ++ t) = Some (length x + k)%nat.
Proof.
  intros Hl Ht. induction Hl as [|a x Ha _ IH]; [done|].
  cbn [app dotstar_then]. by rewrite Ha, IH.
Qed.

Lemma dotstar_close (t : jsstring) :
  dotstar_then close t = None →
  dotstar_then close (close ++ t) = Some (length close).
Proof.
  intros Ht. cbn [app dotstar_then].
  change (is_line_terminator LT) with false. cbv iota.
  rewrite dotstar_plain, Ht by done. cbn [fmap option_fmap option_map].
  change (LT :: cq ++ t) with ((LT :: cq) ++ t). by rewrite starts_with_app.
Qed.

(** The greedy star stops at the last closing text of the line. *)
Lemma dotstar_last (x y : jsstring) :
  one_line x → dotstar_then close y = None →
  dotstar_then close (x ++ close ++ y) = Some (length x + length close)%nat.
Proof. intros Hx Hy. apply dotstar_line; [done|]. by apply dotstar_close. Qed.

Lemma dotstar_inv (t : jsstring) (m : nat) :
  dotstar_then close t = Some m →
  ∃ x y, t = x ++ close ++ y ∧ m = (length x + length close)%nat
         ∧ one_line x ∧ dotstar_then close y = None.
Proof.
  revert m. induction t as [|a t IH]; intros m; [done|].
  cbn [dotstar_then].
  destruct (is_line_terminator a) eqn:Ha.
  - destruct (starts_with close (a :: t)) eqn:Hs; [|done].
    destruct (N.eqb_spec LT a) as [<-|]; [done|].
    by rewrite starts_with_head in Hs.
  - destruct (dotstar_then close t) as [k|] eqn:Hk.
    + intros [= <-]. destruct (IH k eq_refl) as (x & y & -> & -> & Hx & Hy).
      exists (a :: x), y. split_and!; try done. by constructor.
    + destruct (starts_with close (a :: t)) eqn:Hs; [|done]. intros [= <-].
      apply starts_with_inv in Hs. exists [], (drop (length close) (a :: t)).
      split_and!; [done|done|constructor|].
      injection Hs as -> Hs. cbn [length drop] in *.
      rewrite Hs, dotstar_plain in Hk by done.
      by destruct (dotstar_then _ (drop _ t)).
Qed.

Lemma dotstar_cons_some (p : jsstring) (a : N) (t : jsstring) :
  is_Some (dotstar_then p (a :: t)) ↔
  (is_line_terminator a = false ∧ is_Some (dotstar_then p t))
  ∨ starts_with p (a :: t) = true.
Proof.
  cbn [dotstar_then].
  destruct (is_line_terminator a), (dotstar_then p t) as [k|],
    (starts_with p (a :: t)); split; intros H;
    try (by eexists); try (by right); try (by left);
    try (by destruct H as [[]|]); try (by destruct H as []);
    by destruct H as [[? []]|].
Qed.

(** Over a text that starts with [<], has no other, and is not the
    closing text, the star just goes on. *)
Lemma dotstar_hop (tq z : jsstring) :
  plain tq → one_line tq → clash close (LT :: tq) = false →
  dotstar_then close ((LT :: tq) ++ z)
  = (λ k, length (LT :: tq) + k)%nat <$> dotstar_then close z.
Proof.
  intros Hp Hl Hc. cbn [app dotstar_then].
  change (is_line_terminator LT) with false. cbv iota.
  rewrite dotstar_plain by done.
  destruct (dotstar_then close z) as [k|]; [done|].
  cbn [fmap option_fmap option_map].
  change (LT :: tq ++ z) with ((LT :: tq) ++ z). by rewrite clash_free.
Qed.

End Close.

Section Pattern.

(** The opening and the closing text of a pattern: each starts with [<],
    has no other [<], no line terminator and no [$], and neither is the
    beginning of the other. *)
Variables oq cq : jsstring.
Hypothesis oq_plain : plain oq.
Hypothesis cq_plain : plain cq.
Hypothesis oq_line : one_line oq.
Hypothesis cq_line : one_line cq.

Local Abbreviation open := (LT :: oq).
Local Abbreviation close := (LT :: cq).

Lemma match_here_inv (s : jsstring) (n : nat) :
  match_here open close s = Some n →
  ∃ x y, s = open ++ x ++ close ++ y
         ∧ n = (length open + length x + length close)%nat
         ∧ one_line x ∧ dotstar_then close y = None.
Proof.
  unfold match_here. destruct (starts_with open s) eqn:Ho; [|done].
  apply starts_with_inv in Ho.
  destruct (dotstar_then close _) as [k|] eqn:Hk; [|done]. intros [= <-].
  destruct (dotstar_inv cq cq_plain cq_line _ _ Hk) as (x & y & Hd & -> & Hx & Hy).
  exists x, y. rewrite <-Hd. split_and!; [done|cbn [length]; lia|done..].
Qed.

Lemma match_here_last (x y : jsstring) :
  one_line x → dotstar_then close y = None →
  match_here open close (open ++ x ++ close ++ y)
  = Some (length open + length x + length close)%nat.
Proof.
  intros Hx Hy. unfold match_here.
  rewrite starts_with_app, drop_app_length, dotstar_last by done.
  cbn [fmap option_fmap option_map length]. f_equal. lia.
Qed.

(** The replacement text is [open value close], with nothing for
    [replace] to expand in it. *)
Variable value : jsstring.
Hypothesis value_literal : literal value.
Hypothesis oq_literal : literal oq.
Hypothesis cq_literal : literal cq.

Local Abbreviation go := (replace_all open close (open ++ value ++ close)).

Lemma repl_literal : Forall (λ x, x ≠ DOLLAR) (open ++ value ++ close).
Proof.
  repeat (apply Forall_app_2 || apply Forall_cons_2); done.
Qed.

Lemma go_keep (a : N) (s : jsstring) :
  match_here open close (a :: s) = None → go (a :: s) = a :: go s.
Proof. apply replace_all_keep, repl_literal. Qed.

Lemma go_hit (x y : jsstring) :
  one_line x → dotstar_then close y = None →
  go (open ++ x ++ close ++ y) = open ++ value ++ close ++ go y.
Proof.
  intros Hx Hy. assert (Hne : open ≠ []) by done.
  rewrite (replace_all_hit _ _ _ repl_literal _ _ Hne
             (match_here_last x y Hx Hy)).
  rewrite <-!app_assoc. do 3 f_equal.
  rewrite !app_assoc, drop_app_length'; [done|]. rewrite !length_app. lia.
Qed.

Lemma go_plain (q t : jsstring) : plain q → go (q ++ t) = q ++ go t.
Proof.
  induction 1 as [|a q Ha _ IH]; [done|]. cbn [app].
  rewrite go_keep by by apply match_here_other. by rewrite IH.
Qed.

(** The scan as a case analysis on where it stands. *)
Lemma go_cases (s : jsstring) :
  s = [] ∧ go s = []
  ∨ (∃ a s', s = a :: s' ∧ match_here open close s = None ∧ go s = a :: go s')
  ∨ (∃ x y, s = open ++ x ++ close ++ y ∧ one_line x
            ∧ dotstar_then close y = None
            ∧ go s = open ++ value ++ close ++ go y).
Proof.
  destruct s as [|a s']; [by left|]. right.
  destruct (match_here open close (a :: s')) as [n|] eqn:Hm.
  - right. destruct (match_here_inv _ _ Hm) as (x & y & Hs & _ & Hx & Hy).
    exists x, y. rewrite Hs. split_and!; try done. by apply go_hit.
  - left. exists a, s'. split_and!; try done. by apply go_keep.
Qed.

(** Every pass rewrites stretches [open ... close] within a line and
    nothing else. *)
Lemma go_rewrites (s : jsstring) : rewrites open close value s (go s).
Proof.
  induction s as [s IH] using (induction_ltof1 _ length). unfold ltof in IH.
  destruct (go_cases s) as [[-> ->]|[(a & s' & -> & _ & ->)
                                    |(x & y & -> & Hx & Hy & ->)]].
  - constructor.
  - constructor. apply IH. simpl. lia.
  - constructor; [done|]. apply IH. rewrite !length_app. simpl. lia.
Qed.

Hypothesis value_plain : plain value.
Hypothesis value_line : one_line value.
Hypothesis open_close : clash open close = false.

Lemma open_line : one_line open.
Proof. by constructor. Qed.

Lemma close_line : one_line close.
Proof. by constructor. Qed.

Lemma match_here_app (u : jsstring) :
  match_here open close (open ++ u)
  = (λ n, length open + n)%nat <$> dotstar_then close u.
Proof. unfold match_here. by rewrite starts_with_app, drop_app_length. Qed.

(** The scan walks over a text that starts with [<], has no other, and
    is not the opening text. *)
Lemma go_over (tq u : jsstring) :
  plain tq → clash open (LT :: tq) = false →
  go ((LT :: tq) ++ u) = (LT :: tq) ++ go u.
Proof.
  intros Hp Hc. cbn [app]. rewrite go_keep.
  - by rewrite go_plain.
  - unfold match_here. change (LT :: tq ++ u) with ((LT :: tq) ++ u).
    by rewrite clash_free.
Qed.

Lemma go_starts_plain (q s : jsstring) :
  plain q → starts_with q (go s) = starts_with q s.
Proof.
  intros Hq. revert q Hq. induction s as [|a s IH]; intros q Hq; [done|].
  destruct (go_cases (a :: s))
    as [[? _]|[(a' & s' & [= <- <-] & _ & ->)|(x & y & Hs & _ & _ & ->)]];
    [done| |].
  - destruct Hq as [|b q Hb Hq]; [done|]. cbn [starts_with]. by rewrite IH.
  - rewrite Hs. destruct Hq as [|b q Hb Hq]; [done|]. cbn [app].
    by rewrite !starts_with_head.
Qed.

Lemma go_starts (pq s : jsstring) :
  plain pq → pq = oq ∨ clash (LT :: pq) open = false →
  starts_with (LT :: pq) (go s) = starts_with (LT :: pq) s.
Proof.
  intros Hp Ho. destruct (go_cases s)
    as [[-> ->]|[(a & s' & -> & _ & ->)|(x & y & -> & _ & _ & ->)]]; [done| |].
  - cbn [starts_with]. by rewrite go_starts_plain.
  - destruct Ho as [->|Ho]; [by rewrite !starts_with_app|by rewrite !clash_free].
Qed.

(** If a closing text (ours or another) ends the first line of the result,
    one ended the first line of the source. *)
Lemma dotstar_go (dq s : jsstring) :
  plain dq → one_line dq →
  clash (LT :: dq) open = false →
  dq = cq ∨ clash (LT :: dq) close = false →
  is_Some (dotstar_then (LT :: dq) (go s)) →
  is_Some (dotstar_then (LT :: dq) s).
Proof.
  intros Hp Hl Ho Hc.
  induction s as [s IH] using (induction_ltof1 _ length). unfold ltof in IH.
  destruct (go_cases s)
    as [[-> ->]|[(a & s' & -> & _ & Hgo)|(x & y & -> & Hx & Hy & ->)]]; [done| |].
  - rewrite Hgo, !dotstar_cons_some. intros [[Ha Hs]|Hs].
    + left. split; [done|]. apply IH; [simpl; lia|done].
    + right. rewrite <-Hs, <-Hgo. symmetry. apply go_starts; [done|by right].
  - intros Hsome.
    assert (Hall : one_line (open ++ x ++ close)).
    { apply Forall_app_2; [apply open_line|].
      apply Forall_app_2; [done|apply close_line]. }
    destruct Hc as [->|Hc].
    + rewrite (app_assoc open x). rewrite dotstar_last; [by eexists|done..| |done].
      apply Forall_app_2; [apply open_line|done].
    + rewrite dotstar_hop, dotstar_plain, dotstar_hop in Hsome by done.
      rewrite !fmap_is_Some in Hsome. apply IH in Hsome as [k Hk].
      * replace (open ++ x ++ close ++ y) with ((open ++ x ++ close) ++ y)
          by by rewrite <-!app_assoc.
        erewrite dotstar_line; [by eexists|done..].
      * rewrite !length_app. simpl. lia.
Qed.

Lemma dotstar_go_none (dq s : jsstring) :
  plain dq → one_line dq →
  clash (LT :: dq) open = false →
  dq = cq ∨ clash (LT :: dq) close = false →
  dotstar_then (LT :: dq) s = None → dotstar_then (LT :: dq) (go s) = None.
Proof.
  intros Hp Hl Ho Hc Hs.
  destruct (dotstar_then (LT :: dq) (go s)) as [k|] eqn:Hk; [|done].
  destruct (dotstar_go dq s Hp Hl Ho Hc) as [? ?]; [by eexists|congruence].
Qed.

Lemma suffix_plain (q z t : jsstring) :
  plain q → t `suffix_of` q ++ z →
  (∃ a t', t = a :: t' ∧ a ≠ LT) ∨ t `suffix_of` z.
Proof.
  induction 1 as [|b q Hb _ IH]; [by right|]. cbn [app].
  intros [->|Ht]%suffix_cons_cases; [left; eauto|by apply IH].
Qed.

(** The tails of a replaced stretch and what follows it. *)
Lemma suffix_replacement (z t : jsstring) :
  t `suffix_of` open ++ value ++ close ++ z →
  t = open ++ value ++ close ++ z ∨ t = close ++ z
  ∨ (∃ a t', t = a :: t' ∧ a ≠ LT) ∨ t `suffix_of` z.
Proof.
  cbn [app]. intros [->|Ht]%suffix_cons_cases; [by left|]. right.
  apply suffix_plain in Ht as [?|Ht]; [by right; left| |done].
  apply suffix_plain in Ht as [?|Ht]; [by right; left| |done].
  apply suffix_cons_cases in Ht as [->|Ht]; [by left|]. right.
  by apply suffix_plain in Ht.
Qed.

Lemma match_here_go (s : jsstring) :
  is_Some (match_here open close (go s)) → is_Some (match_here open close s).
Proof.
  intros Hm.
  assert (Hst : starts_with open (go s) = true).
  { unfold match_here in Hm. destruct (starts_with open (go s)); [done|].
    by destruct Hm. }
  rewrite go_starts in Hst by (done || by left).
  apply starts_with_inv in Hst. rewrite Hst.
  destruct (match_here open close (open ++ drop (length open) s)) eqn:Hn;
    [by eexists|].
  rewrite Hst in Hm. cbn [app] in Hm, Hn. rewrite go_keep in Hm by done.
  rewrite go_plain in Hm by done.
  change (LT :: oq ++ ?u) with (open ++ u) in Hm, Hn.
  rewrite match_here_app in Hm, Hn. rewrite fmap_is_Some in Hm.
  apply dotstar_go in Hm as [k Hk]; [|done|done | by rewrite clash_free_sym|by left].
  by rewrite Hk in Hn.
Qed.

(** The result of a pass is settled for the pass's own pattern. *)
Lemma go_settles (s : jsstring) : settled open close value (go s).
Proof.
  induction s as [s IH] using (induction_ltof1 _ length). unfold ltof in IH.
  destruct (go_cases s)
    as [[-> ->]|[(a & s' & -> & Hnone & Hgo)|(x & y & -> & Hx & Hy & ->)]].
  - intros t Ht%suffix_nil_inv [k Hk]. by subst.
  - intros t Ht Hm. rewrite Hgo in Ht.
    apply suffix_cons_cases in Ht as [->|Ht].
    + rewrite <-Hgo in Hm. apply match_here_go in Hm as [k Hk]. congruence.
    + apply (IH s'); [simpl; lia|done..].
  - intros t Ht Hm.
    apply suffix_replacement in Ht as [->|[->|[(a & t' & -> & Ha)|Ht]]].
    + eexists. split; [done|].
      apply dotstar_go_none; [done|done|by rewrite clash_free_sym|by left|done].
    + unfold match_here in Hm. rewrite clash_free in Hm by done.
      by destruct Hm.
    + rewrite match_here_other in Hm by done. by destruct Hm.
    + apply (IH y); [|done..]. rewrite !length_app. simpl. lia.
Qed.


(** *** A pass works line by line *)

Lemma match_here_line_end (u : jsstring) (a : N) (t : jsstring) :
  is_line_terminator a = true →
  match_here open close (u ++ a :: t) = match_here open close u.
Proof.
  intros Ha. unfold match_here.
  rewrite starts_with_line by (done || apply open_line).
  destruct (starts_with open u) eqn:Ho; [|done].
  apply starts_with_inv in Ho. apply (f_equal length) in Ho.
  rewrite length_app in Ho. rewrite drop_app_le by lia.
  by rewrite dotstar_line_end by (done || apply close_line).
Qed.

Lemma go_line_split (u : jsstring) (a : N) (t : jsstring) :
  is_line_terminator a = true → go (u ++ a :: t) = go u ++ a :: go t.
Proof.
  intros Ha. induction u as [u IH] using (induction_ltof1 _ length).
  unfold ltof in IH. destruct (go_cases u)
    as [[-> ->]|[(b & u' & -> & Hnone & ->)|(x & y & -> & Hx & Hy & ->)]].
  - cbn [app]. rewrite go_keep; [done|]. apply match_here_other.
    by intros ->.
  - cbn [app]. rewrite go_keep.
    + f_equal. apply IH. simpl. lia.
    + change (b :: u' ++ a :: t) with ((b :: u') ++ a :: t).
      by rewrite match_here_line_end.
  - rewrite <-!app_assoc. rewrite go_hit.
    + rewrite IH; [done|]. rewrite !length_app. simpl. lia.
    + done.
    + by rewrite dotstar_line_end by (done || apply close_line).
Qed.

(** Where the opening text does not occur, nothing changes. *)
Lemma go_absent (l : jsstring) : occurs open l = false → go l = l.
Proof.
  induction l as [|a l IH]; [done|]. cbn [occurs].
  intros [Hs Ho]%orb_false_elim. rewrite go_keep, IH; [done..|].
  unfold match_here. by rewrite Hs.
Qed.

(** A stretch of whole lines without the opening text is kept, and does
    not bear on what happens before and behind it. *)
Lemma go_frame (a l b : jsstring) :
  ends_line a → starts_line b → occurs open l = false →
  go (a ++ l ++ b) = go a ++ l ++ go b
  ∧ ends_line (go a) ∧ starts_line (go b).
Proof.
  intros Ha Hb Hl.
  assert (Hlb : go (l ++ b) = l ++ go b ∧ starts_line (go b)).
  { destruct Hb as [->|(nl & b0 & -> & Hnl)].
    - rewrite app_nil_r, go_absent by done. split; [by rewrite app_nil_r|by left].
    - rewrite go_line_split, go_absent by done.
      assert (Hgo : go (nl :: b0) = nl :: go b0)
        by exact (go_line_split [] nl b0 Hnl).
      rewrite Hgo. split; [done|]. right. by exists nl, (go b0). }
  destruct Hlb as [Hlb Hgb]. destruct Ha as [->|(a0 & nl & -> & Hnl)].
  - split_and!; [done|by left|done].
  - rewrite <-app_assoc. cbn [app]. rewrite !go_line_split by done.
    rewrite Hlb. change (go []) with (@nil N).
    split_and!; [by rewrite <-app_assoc| |done].
    right. by exists (go a0), nl.
Qed.

(** *** A pass and the pattern of another *)

Section Other.

(** The opening text, closing text and value of another pattern, none of
    whose texts is the beginning of, or begins with, one of ours. *)
Variables eq dq w : jsstring.
Hypothesis eq_plain : plain eq.
Hypothesis dq_plain : plain dq.
Hypothesis dq_line : one_line dq.
Hypothesis w_plain : plain w.
Hypothesis open_open : clash (LT :: eq) open = false.
Hypothesis open_close' : clash (LT :: eq) close = false.
Hypothesis close_open : clash (LT :: dq) open = false.
Hypothesis close_close : clash (LT :: dq) close = false.

Lemma other_match_go (s : jsstring) :
  settled (LT :: eq) (LT :: dq) w s →
  is_Some (match_here (LT :: eq) (LT :: dq) (go s)) →
  ∃ y, go s = (LT :: eq) ++ w ++ (LT :: dq) ++ y
       ∧ dotstar_then (LT :: dq) y = None.
Proof.
  intros Hs Hm.
  assert (Hst : starts_with (LT :: eq) (go s) = true).
  { unfold match_here in Hm. destruct (starts_with (LT :: eq) (go s)); [done|].
    by destruct Hm. }
  rewrite go_starts in Hst by (done || by right).
  apply starts_with_inv in Hst. set (u := drop _ s) in Hst.
  rewrite Hst in Hm. rewrite go_over in Hm by (done || by rewrite clash_free_sym).
  unfold match_here in Hm. rewrite starts_with_app, drop_app_length in Hm.
  rewrite fmap_is_Some in Hm.
  apply dotstar_go in Hm; [|done|done|done|by right].
  destruct (Hs s) as (y & Hy1 & Hy2); [done| |].
  { rewrite Hst. unfold match_here.
    rewrite starts_with_app, drop_app_length. by rewrite fmap_is_Some. }
  exists (go y). split.
  - rewrite Hy1. rewrite go_over by (done || by rewrite clash_free_sym).
    rewrite go_plain by done.
    by rewrite go_over by (done || by rewrite clash_free_sym).
  - by apply dotstar_go_none; [done|done|done|by right|done].
Qed.

(** A pass leaves a text settled for the other pattern settled for it. *)
Lemma go_keeps_settled (s : jsstring) :
  settled (LT :: eq) (LT :: dq) w s → settled (LT :: eq) (LT :: dq) w (go s).
Proof.
  induction s as [s IH] using (induction_ltof1 _ length). unfold ltof in IH.
  intros Hs. destruct (go_cases s)
    as [[-> ->]|[(a & s' & -> & Hnone & Hgo)|(x & y & -> & Hx & Hy & ->)]];
    [done| |].
  - intros t Ht Hm. rewrite Hgo in Ht.
    apply suffix_cons_cases in Ht as [->|Ht].
    + rewrite <-Hgo in Hm |- *. by apply other_match_go.
    + apply (IH s'); [simpl; lia| |done..].
      apply (settled_suffix _ _ _ _ _ Hs). by apply suffix_cons_r.
  - intros t Ht Hm.
    apply suffix_replacement in Ht as [->|[->|[(a & t' & -> & Ha)|Ht]]].
    + unfold match_here in Hm. rewrite clash_free in Hm by done.
      by destruct Hm.
    + unfold match_here in Hm. rewrite clash_free in Hm by done.
      by destruct Hm.
    + rewrite match_here_other in Hm by done. by destruct Hm.
    + apply (IH y); [rewrite !length_app; simpl; lia| |done..].
      apply (settled_suffix _ _ _ _ _ Hs). do 3 apply suffix_app_r. done.
Qed.

End Other.

End Pattern.

(** *** The passes of [updateProjectFile] *)

Section Passes.

Lemma property_name_facts (n : jsstring) : n ∈ property_names → name_facts n.
Proof.
  unfold property_names. intros Hn.
  repeat (apply elem_of_cons in Hn as [->|Hn]); [..|by apply elem_of_nil in Hn];
    split; unfold plain, one_line, literal; solve [decide_closed | reflexivity].
Qed.

Lemma property_names_apart (n n' : jsstring) :
  n ∈ property_names → n' ∈ property_names → n ≠ n' →
  clash (LT :: n' ++ [GT]) (LT :: n ++ [GT]) = false
  ∧ clash (LT :: n' ++ [GT]) (LT :: SLASH :: n ++ [GT]) = false
  ∧ clash (LT :: SLASH :: n' ++ [GT]) (LT :: n ++ [GT]) = false
  ∧ clash (LT :: SLASH :: n' ++ [GT]) (LT :: SLASH :: n ++ [GT]) = false.
Proof.
  unfold property_names. intros Hn Hn' Hne.
  repeat (apply elem_of_cons in Hn as [->|Hn]); [..|by apply elem_of_nil in Hn];
    repeat (apply elem_of_cons in Hn' as [->|Hn']);
    try (by apply elem_of_nil in Hn'); try done; by vm_compute.
Qed.

Lemma replace_property_settles (n v c : jsstring) :
  n ∈ property_names → good_value v →
  settled (open_tag n) (close_tag n) v (replace_property n v c).
Proof.
  intros Hn (Hp & Hl & Hd). destruct (property_name_facts n Hn).
  by apply (go_settles (n ++ [GT]) (SLASH :: n ++ [GT])).
Qed.

Lemma replace_property_keeps (n v n' v' c : jsstring) :
  n ∈ property_names → n' ∈ property_names → n ≠ n' →
  good_value v → good_value v' →
  settled (open_tag n') (close_tag n') v' c →
  settled (open_tag n') (close_tag n') v' (replace_property n v c).
Proof.
  intros Hn Hn' Hne (Hp & Hl & Hd) (Hp' & Hl' & Hd').
  destruct (property_name_facts n Hn), (property_name_facts n' Hn').
  destruct (property_names_apart n n' Hn Hn' Hne) as (? & ? & ? & ?).
  by apply (go_keeps_settled (n ++ [GT]) (SLASH :: n ++ [GT])).
Qed.


Lemma replace_property_rewrites (n v c : jsstring) :
  n ∈ property_names → literal v →
  rewrites (open_tag n) (close_tag n) v c (replace_property n v c).
Proof.
  intros Hn Hd. destruct (property_name_facts n Hn).
  by apply (go_rewrites (n ++ [GT]) (SLASH :: n ++ [GT])).
Qed.

Lemma replace_property_frame (n v a l b : jsstring) :
  n ∈ property_names → literal v →
  ends_line a → starts_line b → occurs (open_tag n) l = false →
  replace_property n v (a ++ l ++ b)
  = replace_property n v a ++ l ++ replace_property n v b
  ∧ ends_line (replace_property n v a) ∧ starts_line (replace_property n v b).
Proof.
  intros Hn Hd. destruct (property_name_facts n Hn).
  by apply (go_frame (n ++ [GT]) (SLASH :: n ++ [GT])).
Qed.

Lemma apply_passes_snoc (ps : list (jsstring * jsstring)) (n v c : jsstring) :
  apply_passes (ps ++ [(n, v)]) c = replace_property n v (apply_passes ps c).
Proof. unfold apply_passes. by rewrite foldl_snoc. Qed.

(** After passes for different properties, the text is settled for each. *)
Lemma apply_passes_settled (ps : list (jsstring * jsstring)) (c : jsstring) :
  NoDup ps.*1 →
  Forall (λ nv, nv.1 ∈ property_names ∧ good_value nv.2) ps →
  Forall (λ nv, settled (open_tag nv.1) (close_tag nv.1) nv.2
                  (apply_passes ps c)) ps.
Proof.
  induction ps as [|[n v] ps IH] using rev_ind; [constructor|].
  rewrite fmap_app, NoDup_app. intros (Hnd & Hnew & _).
  intros [Hps [[Hn Hv] _]%Forall_cons]%Forall_app.
  rewrite apply_passes_snoc. apply Forall_app. split.
  - specialize (IH Hnd Hps). rewrite Forall_forall in IH, Hps |- *.
    intros [n' v'] Hin. destruct (Hps _ Hin) as [Hn' Hv'].
    specialize (IH _ Hin). cbn [fst snd] in *.
    apply replace_property_keeps; try done.
    + intros <-. apply (Hnew n); [|by left].
      by apply (list_elem_of_fmap_2 fst _ _ Hin).
  - constructor; [|constructor]. by apply replace_property_settles.
Qed.



Lemma updated_content_passes (p : ProjectVersion) (g : version_groups)
    (c : jsstring) :
  updated_content p g c = apply_passes (passes p g) c.
Proof. unfold updated_content, passes. by destruct (truthy (prerelease g)). Qed.

Lemma passes_names (p : ProjectVersion) (g : version_groups) :
  NoDup (passes p g).*1 ∧ Forall (λ nv, nv.1 ∈ property_names) (passes p g).
Proof.
  unfold passes. destruct (truthy (prerelease g)); cbn [app fmap list_fmap fst];
    (split; [decide_closed|repeat constructor; decide_closed]).
Qed.

Lemma digits_good (d : jsstring) :
  Forall (λ c, is_digit c = true) d → good_value d.
Proof.
  intros Hd. split_and!; (eapply Forall_impl; [exact Hd|]); intros c;
    unfold is_digit, is_line_terminator, LT, DOLLAR;
    intros [H1 H2]%andb_prop; apply N.leb_le in H1, H2.
  - lia.
  - repeat (apply orb_false_intro); apply N.eqb_neq; lia.
  - lia.
Qed.

(** The values of the passes for a version that matches the pattern and
    has neither [<] nor [$] in it. *)
Lemma passes_values (p : ProjectVersion) (g : version_groups) :
  version_match (version p) = Some g →
  plain (version p) → literal (version p) →
  Forall (λ nv, good_value nv.2) (passes p g).
Proof.
  intros Hm Hp Hd. destruct (version_match_spec _ _ Hm)
    as (Hv & [_ Hma] & [_ Hmi] & [_ Hpa] & Hpre).
  assert (Hline : one_line (version p)).
  { rewrite Hv. unfold rejoin.
    repeat (apply Forall_app_2 || apply Forall_cons_2); try done;
      try (by apply digits_good).
    destruct (prerelease g) as [pre|]; [|constructor].
    apply Forall_app_2; [by constructor|]. by apply (Hpre pre). }
  unfold passes. apply Forall_app_2.
  - repeat constructor; try done; by apply digits_good.
  - destruct (prerelease g) as [[|x pre]|] eqn:Epre; try constructor;
      [|constructor]. cbn [snd template].
    rewrite Hv in Hp, Hd, Hline. unfold rejoin in Hp, Hd, Hline.
    rewrite Epre in Hp, Hd, Hline. unfold plain, literal, one_line in *.
    rewrite !Forall_app in Hp, Hd, Hline.
    destruct Hp as (_ & _ & _ & _ & _ & _ & Hp).
    destruct Hd as (_ & _ & _ & _ & _ & _ & Hd).
    by destruct Hline as (_ & _ & _ & _ & _ & _ & Hline).
Qed.

End Passes.

(** ** Updating a project file *)

Section UpdateProjectFile.

(** Every way [updateProjectFile] can go. *)
Lemma updateProjectFile_eq (p : ProjectVersion) (w : world) :
  updateProjectFile p w =
  match files w !! path p with
  | None => (inl (ENOENT (path p)), w)
  | Some content =>
      match version_match (version p) with
      | None =>
          (inr tt, warned w (str "Cannot parse version " ++ version p
                             ++ str " for " ++ project p))
      | Some g =>
          let updatedContent := updated_content p g content in
          if eqb updatedContent content then (inr tt, w)
          else if bool_decide (path p ∈ locked w)
               then (inl (EACCES (path p)), w)
               else (inr tt,
                     World (<[path p := updatedContent]> (files w)) (locked w)
                       (events w
                        ++ [FileWritten (path p) updatedContent;
                            Info (str "Updated version properties in "
                                  ++ project p)]))
      end
  end.
Proof.
  unfold updateProjectFile, mbind, M_bind, readFile.
  destruct (files w !! path p) as [content|]; [|done].
  destruct (version_match (version p)) as [g|]; [|done]. cbv zeta.
  destruct (eqb _ content); [done|]. cbn [negb]. unfold writeFile.
  destruct (bool_decide (path p ∈ locked w)); [done|].
  unfold info, emit. cbn [files locked events]. by rewrite <-app_assoc.
Qed.


End UpdateProjectFile.







(** A stale suffix on a line of its own is kept. *)
Example stale_suffix_is_kept :
  let p := Demo.record "A" "/repo/src/A/A.csproj" "2.0.0" true in
  let w := World {[ path p := str "<Version>1.0.0-beta</Version>" ++ [LF]
                              ++ str "<VersionSuffix>beta</VersionSuffix>" ]}
                 ∅ [] in
  files (updateProjectFile p w).2 !! path p
  = Some (str "<Version>2.0.0</Version>" ++ [LF]
          ++ str "<VersionSuffix>beta</VersionSuffix>").
Proof. vm_compute. reflexivity. Qed.

(** * Further properties of the action *)

(** ** What the version pattern accepts *)

Section Accepts.

Lemma span_stops (p : N → bool) (a b : jsstring) :
  Forall (λ c, p c = true) a → (head b ≫= λ c, Some (p c)) ≠ Some true →
  span p (a ++ b) = (a, b).
Proof.
  intros Ha Hb. induction Ha as [|c a Hc _ IH]; cbn [app].
  - destruct b as [|c b]; [done|]. simpl in *. destruct (p c); [done|done].
  - simpl. by rewrite Hc, IH.
Qed.

Lemma re_digits_stops (d rest : jsstring) :
  d ≠ [] → Forall (λ c, is_digit c = true) d →
  (head rest ≫= λ c, Some (is_digit c)) ≠ Some true →
  re_digits (d ++ rest) = Some (d, rest).
Proof.
  intros Hne Hd Hrest. unfold re_digits. rewrite span_stops by done.
  by destruct d.
Qed.

Lemma re_prerelease_accepts (pre : option jsstring) :
  (∀ t, pre = Some t → t ≠ [] ∧ Forall (λ c, is_line_terminator c = false) t) →
  re_prerelease (match pre with Some t => [DASH] ++ t | None => [] end)
  = Some pre.
Proof.
  intros Hpre. destruct pre as [t|]; [|done].
  destruct (Hpre t eq_refl) as [Hne Hline]. cbn [app re_prerelease].
  rewrite N.eqb_refl, bool_decide_true by done. cbn [andb].
  replace (forallb _ t) with true; [done|]. symmetry.
  apply forallb_forall. intros x Hx%list_elem_of_In.
  rewrite Forall_forall in Hline. by rewrite (Hline x Hx).
Qed.

Lemma version_match_rejoin (g : version_groups) :
  well_formed g → version_match (rejoin g) = Some g.
Proof.
  intros ([Hma Dma] & [Hmi Dmi] & [Hpa Dpa] & Hpre).
  destruct g as [ma mi pa pre]. cbn [major minor patch prerelease] in *.
  unfold version_match, rejoin. cbn [major minor patch prerelease app].
  rewrite re_digits_stops by done. cbn [mbind option_bind re_char].
  change (DOT =? DOT) with true. cbn [mbind option_bind].
  rewrite re_digits_stops by done. cbn [mbind option_bind re_char].
  change (DOT =? DOT) with true. cbn [mbind option_bind].
  rewrite re_digits_stops; [| done..|].
  - cbn [mbind option_bind].
    change (match pre with Some pre0 => DASH :: pre0 | None => [] end)
      with (match pre with Some t => [DASH] ++ t | None => [] end).
    by rewrite re_prerelease_accepts.
  - by destruct pre.
Qed.

End Accepts.

(** X1. The version pattern accepts exactly the texts made of three
    non-empty runs of digits with dots between them, followed or not by a
    dash and a non-empty rest without a line terminator; the groups are
    then these pieces. *)
Theorem version_match_accepts (v : jsstring) (g : version_groups) :
  version_match v = Some g ↔ v = rejoin g ∧ well_formed g.
Proof.
  split.
  - intros Hm. destruct (version_match_spec v g Hm) as (Hv & H). by split.
  - intros [-> Hg]. by apply version_match_rejoin.
Qed.

(** ** The component outputs of any version *)

Section Components.

Lemma split_on_pieces (sep : N → bool) (s : jsstring) :
  Forall (Forall (λ c, sep c = false)) (split_on sep s).
Proof.
  induction s as [|c s IH]; cbn [split_on]; [by repeat constructor|].
  destruct (sep c) eqn:Hc; [by constructor|].
  destruct (split_on sep s) as [|q qs]; [by repeat constructor|].
  inversion IH; subst. constructor; [by constructor|done].
Qed.

Lemma join_pieces (P : N → Prop) (sep : jsstring) (pieces : list jsstring) :
  Forall P sep → Forall (Forall P) pieces → Forall P (join sep pieces).
Proof.
  intros Hsep. induction 1 as [|q qs Hq Hqs IH]; [constructor|].
  cbn [join]. destruct qs as [|q' qs']; [done|].
  apply Forall_app_2; [done|]. by apply Forall_app_2.
Qed.

Lemma or_default_piece (P : N → Prop) (parts : list jsstring) (i : nat) :
  Forall (Forall P) parts → Forall P (str "0") →
  or_default (parts !! i) (str "0") ≠ []
  ∧ Forall P (or_default (parts !! i) (str "0")).
Proof.
  intros Hparts H0. destruct (parts !! i) as [[|c q]|] eqn:Hi; cbn [or_default];
    [done|split; [done|]|done].
  rewrite Forall_forall in Hparts. apply (Hparts (c :: q)).
  by apply list_elem_of_lookup_2 in Hi.
Qed.

End Components.

(** X2. Whatever the version of the first project is, the major, minor
    and patch outputs of [run] are non-empty and hold neither a dot nor a
    dash, and the prerelease output holds no dash. *)
Theorem version_components_have_no_separator (v : jsstring) :
  let parts := version_parts v in
  Forall (λ out, out ≠ [] ∧ Forall (λ c, c ≠ DOT ∧ c ≠ DASH) out)
    [major_output parts; minor_output parts; patch_output parts]
  ∧ Forall (λ c, c ≠ DASH) (prerelease_output parts).
Proof.
  intros parts.
  assert (Hparts : Forall (Forall (λ c, c ≠ DOT ∧ c ≠ DASH)) parts).
  { eapply Forall_impl; [apply split_on_pieces|]. intros q Hq.
    eapply Forall_impl; [exact Hq|]. intros c Hc. cbv beta in Hc.
    apply orb_false_elim in Hc as [H1%N.eqb_neq H2%N.eqb_neq]. done. }
  assert (H0 : Forall (λ c, c ≠ DOT ∧ c ≠ DASH) (str "0"))
    by (repeat constructor; done).
  split.
  - unfold major_output, minor_output, patch_output.
    repeat (apply Forall_cons_2; [by apply or_default_piece|]). constructor.
  - unfold prerelease_output. case_bool_decide; [|constructor].
    apply join_pieces; [by repeat constructor|].
    apply Forall_drop. eapply Forall_impl; [exact Hparts|].
    intros q Hq. eapply Forall_impl; [exact Hq|]. by intros c [_ ?].
Qed.

(** ** Finding the project files *)

Section Find.

Lemma ends_with_spec (p s : jsstring) :
  ends_with p s = true ↔ ∃ stem, s = stem ++ p.
Proof.
  unfold ends_with. split.
  - intros H%starts_with_inv. exists (reverse (drop (length (reverse p)) (reverse s))).
    apply (inj reverse). by rewrite reverse_app, reverse_involutive.
  - intros [stem ->]. rewrite reverse_app. apply starts_with_app.
Qed.

Lemma is_project_file_spec (file : jsstring) :
  ends_with (str ".csproj") file || ends_with (str ".vbproj") file
  || ends_with (str ".fsproj") file = true ↔ is_project_file file.
Proof.
  rewrite !orb_true_iff, !ends_with_spec. unfold is_project_file. split.
  - intros [[[s ->]|[s ->]]|[s ->]].
    + exists s, (str ".csproj"). split; [decide_closed|done].
    + exists s, (str ".vbproj"). split; [decide_closed|done].
    + exists s, (str ".fsproj"). split; [decide_closed|done].
  - intros (s & ext & Hext & ->).
    repeat (apply elem_of_cons in Hext as [->|Hext]);
      [..|by apply elem_of_nil in Hext]; eauto.
Qed.

Lemma selects_filter_bool {A} (P : A → Prop) (b : A → bool) (l : list A) :
  (∀ x, b x = true ↔ P x) → selects P l (filter (λ x, b x) l).
Proof.
  intros Hb. induction l as [|x l IH]; [constructor|].
  destruct (b x) eqn:Hx.
  - rewrite filter_cons_True by by rewrite Hx. constructor; [by apply Hb|done].
  - rewrite filter_cons_False by (rewrite Hx; intros []). constructor; [|done].
    rewrite <-Hb, Hx. done.
Qed.

End Find.

(** X3. [findProjectFiles] passes on a failure of the glob; otherwise it
    returns, without touching the world, the matches whose name ends with
    [.csproj], [.vbproj] or [.fsproj], each once and in the order of the
    glob, each resolved against the repository path. *)
Theorem findProjectFiles_selects (env : Env) (pattern repositoryPath : jsstring)
    (w : world) :
  match glob env pattern with
  | inl e => findProjectFiles env pattern repositoryPath w = (inl e, w)
  | inr found =>
      ∃ kept,
        findProjectFiles env pattern repositoryPath w
        = (inr (path_resolve env repositoryPath <$> kept), w)
        ∧ selects is_project_file found kept
  end.
Proof.
  unfold findProjectFiles. destruct (glob env pattern) as [e|found]; [done|].
  eexists. split; [reflexivity|].
  apply (selects_filter_bool is_project_file
           (λ file, ends_with (str ".csproj") file
                    || ends_with (str ".vbproj") file
                    || ends_with (str ".fsproj") file)).
  apply is_project_file_spec.
Qed.

(** ** Asking [mr-version] for a version *)

Section Tool.

Lemma trim_blank (s : jsstring) : blank s → trim s = [].
Proof.
  intros Hs. unfold trim.
  pose proof (span_stops is_whitespace s [] Hs) as H.
  rewrite app_nil_r in H. by rewrite H.
Qed.

(** [trim] takes white space off both ends and nothing else. *)
Lemma trim_spec (s : jsstring) :
  ∃ lead trail, s = lead ++ trim s ++ trail ∧ blank lead ∧ blank trail
                ∧ (trim s = [] → blank s).
Proof.
  unfold trim. destruct (span is_whitespace s) as [a b] eqn:Ha.
  destruct (span_spec _ _ _ _ Ha) as (-> & Hlead & Hb). cbn [snd].
  destruct (span is_whitespace (reverse b)) as [c d] eqn:Hc.
  destruct (span_spec _ _ _ _ Hc) as (Hrev & Htrail & Hd). cbn [snd].
  assert (Eb : b = reverse d ++ reverse c).
  { apply (inj reverse). by rewrite reverse_app, !reverse_involutive. }
  exists a, (reverse c). split_and!; [by rewrite Eb|done| |].
  - by apply Forall_reverse.
  - intros Hnil. assert (d = []) as ->.
    { apply (inj reverse). by rewrite Hnil. }
    rewrite Eb. apply Forall_app_2; [done|]. cbn [reverse app].
    by apply Forall_reverse.
Qed.

Lemma trim_not_blank (s : jsstring) : ¬ blank s → trim s ≠ [].
Proof.
  intros Hs Hnil. apply Hs.
  by destruct (trim_spec s) as (lead & trail & _ & _ & _ & H); apply H.
Qed.

End Tool.

(** X4. The arguments [run] has [mr-version] called with for a project
    file: the repository and the project, [--tag-prefix] always (with [v]
    when the input is unset), [--prerelease-type] unless the input is unset
    or [none], the three optional inputs when they are set, and
    [--dry-run] in a dry run; and what [calculateProjectVersion] returns
    depends on the tool through its answer to these arguments only. *)
Theorem run_tool_arguments (env : Env) (dry : bool) (f : jsstring) :
  let input := λ name, getInput env (str name) in
  let args :=
    [str "version"; str "--repo"; or_else (input "repository-path") (str ".");
     str "--project"; f; str "--json"]
    ++ (if eqb (input "prerelease-type") (str "none") then []
        else flag (str "--prerelease-type") (input "prerelease-type"))
    ++ [str "--tag-prefix"; or_else (input "tag-prefix") (str "v")]
    ++ flag (str "--force-version") (input "force-version")
    ++ flag (str "--dependencies") (input "dependencies")
    ++ flag (str "--config-file") (input "config-file")
    ++ (if dry then [str "--dry-run"] else []) in
  mr_version_args (run_options env dry f) = args
  ∧ ∀ tool w,
      tool (str "mr-version") args = getExecOutput env (str "mr-version") args →
      calculateProjectVersion (with_tool env tool) (run_options env dry f) w
      = calculateProjectVersion env (run_options env dry f) w.
Proof.
  intros input args.
  assert (Hargs : mr_version_args (run_options env dry f) = args).
  { subst args. unfold mr_version_args, run_options.
    cbn [projectFile repositoryPath prereleaseType tagPrefix forceVersion
         opt_dependencies configFile dryRun].
    assert (Hflag : ∀ name value,
              (if bool_decide (value ≠ []) then [name; value] else [])
              = flag name value).
    { intros name [|c value]; [done|]. by rewrite bool_decide_true. }
    rewrite !Hflag. f_equal. f_equal; [|f_equal].
    - subst input. cbv beta. unfold eqb.
      destruct (getInput env (str "prerelease-type")) as [|c pt] eqn:Hpt.
      + cbn [or_else]. by rewrite bool_decide_true by done.
      + cbn [or_else]. rewrite bool_decide_true by done. cbn [andb].
        by case_bool_decide.
    - subst input. cbv beta.
      by destruct (getInput env (str "tag-prefix")) as [|c tp]. }
  split; [exact Hargs|]. intros tool w Htool.
  unfold calculateProjectVersion.
  fold (mr_version_args (run_options env dry f)). rewrite Hargs.
  cbn [getExecOutput with_tool JSON_parse]. by rewrite Htool.
Qed.

(** X5. What [calculateProjectVersion] makes of a run of the tool, the
    world staying as it is: an exit code other than 0 is an error that
    carries the error output; with exit code 0, an output of white space
    only is reported as empty, and an output [JSON.parse] refuses is an
    error that carries the refusal; a record is returned only for exit
    code 0, and it is what [JSON.parse] makes of the output without the
    white space around it. A failure to start the tool is passed on. *)
Theorem calculateProjectVersion_outcome (env : Env)
    (options : CalculateVersionOptions) (w : world) :
  let started := getExecOutput env (str "mr-version") (mr_version_args options) in
  let result := calculateProjectVersion env options w in
  (∀ e, started = inl e → result = (inl e, w))
  ∧ ∀ output, started = inr output →
      (exitCode output ≠ 0%Z →
       result = (inl (Error (str "mr-version failed for " ++ projectFile options
                             ++ str ": " ++ stderr output)), w))
      ∧ (exitCode output = 0%Z → blank (stdout output) →
         result = (inl (parse_failure (projectFile options)
                          (str "Error: mr-version returned empty output")), w))
      ∧ (exitCode output = 0%Z → ¬ blank (stdout output) →
         ∀ e, JSON_parse env (trim (stdout output)) = inl e →
              result = (inl (parse_failure (projectFile options)
                               (error_to_string e)), w))
      ∧ (∀ p w', result = (inr p, w') →
           w' = w ∧ exitCode output = 0%Z
           ∧ JSON_parse env (trim (stdout output)) = inr p
           ∧ ∃ lead trail, stdout output = lead ++ trim (stdout output) ++ trail
                           ∧ blank lead ∧ blank trail
                           ∧ trim (stdout output) ≠ []).
Proof.
  intros started result. subst started result.
  unfold calculateProjectVersion. fold (mr_version_args options).
  destruct (getExecOutput env (str "mr-version") (mr_version_args options))
    as [e|output]; (split; [intros e' [= <-] || intros e' [=]; try done
                           |intros out [= <-] || intros out [=]]).
  cbn [lift]. rewrite ret_bind.
  destruct (Z.eqb_spec (exitCode output) 0) as [Hz|Hnz]; cbn [negb].
  - unfold try_catch, throw, parse_failure. split_and!; [done| | |].
    + intros _ Hblank. by rewrite (trim_blank _ Hblank), bool_decide_true.
    + intros _ Hnb e He.
      rewrite bool_decide_false by by apply trim_not_blank.
      by rewrite He.
    + intros p w'. case_bool_decide as Hnil; [done|].
      destruct (JSON_parse env (trim (stdout output))) as [e|q]; [done|].
      cbn [lift]. intros [= <- <-]. split_and!; [done..|].
      destruct (trim_spec (stdout output)) as (lead & trail & ? & ? & ? & _).
      by exists lead, trail.
  - unfold throw. split_and!; try done.
Qed.

Lemma calculateProjectVersion_outcome_witness :
  calculateProjectVersion (Demo.env [] [] [])
    {| projectFile := str "  "; repositoryPath := str ".";
       prereleaseType := str "none"; tagPrefix := str "v";
       forceVersion := []; opt_dependencies := []; configFile := [];
       dryRun := false |} Demo.empty_world
  = (inl (parse_failure (str "  ")
            (str "Error: mr-version returned empty output")),
     Demo.empty_world).
Proof.
  refine (proj1 (proj2 (proj2 (calculateProjectVersion_outcome
            (Demo.env [] [] []) _ Demo.empty_world) _ eq_refl)) eq_refl _).
  unfold blank. apply (bool_decide_unpack _). vm_compute. exact I.
Defined.

(** ** Leaving out the test projects *)

Section Partition.

Lemma filter_partition_length {A} (b : A → bool) (l : list A) :
  length l = (length (filter (λ x, b x) l)
              + length (filter (λ x, negb (b x)) l))%nat.
Proof.
  induction l as [|x l IH]; [done|]. destruct (b x) eqn:Hx.
  - rewrite filter_cons_True by by rewrite Hx.
    rewrite (filter_cons_False (λ x, negb (b x))) by (rewrite Hx; intros []).
    simpl. lia.
  - rewrite filter_cons_False by (rewrite Hx; intros []).
    rewrite (filter_cons_True (λ x, negb (b x))) by by rewrite Hx.
    simpl. lia.
Qed.

End Partition.

(** X6. Leaving the test projects out takes exactly the test projects off
    both lists of the result and changes nothing else of them; the count in
    the one line this adds to the log is the number of records left out,
    and no line is added when there is none. With the test projects
    included the log gets nothing. *)
Theorem analyzeResults_excludes_tests (results : list ProjectVersion)
    (w : world) :
  let tests := length (filter (λ p, isTestProject p) results) in
  ∃ r_all r w',
    analyzeResults results true w = (inr r_all, w)
    ∧ analyzeResults results false w = (inr r, w')
    ∧ projects r = filter (λ p, negb (isTestProject p)) (projects r_all)
    ∧ changedProjects r
      = filter (λ p, negb (isTestProject p)) (changedProjects r_all)
    ∧ length results = (length (projects r) + tests)%nat
    ∧ files w' = files w
    ∧ events w' = events w ++
        match tests with
        | O => []
        | _ => [Info (str "Filtered out " ++ of_nat tests
                      ++ str " test project(s)")]
        end.
Proof.
  intros tests. eexists _, _, _. rewrite !analyzeResults_eq.
  cbn [negb andb]. split_and!.
  - destruct w as [fs ls es]. cbn [files locked events]. by rewrite app_nil_r.
  - reflexivity.
  - done.
  - cbn [changedProjects projects]. rewrite !list_filter_filter.
    apply list_filter_iff. tauto.
  - cbn [projects]. rewrite (filter_partition_length (λ p, isTestProject p) results).
    subst tests. lia.
  - done.
  - cbn [events]. fold tests. by destruct tests.
Qed.

(** ** The summary *)


(** ** A project file without the properties *)

Section Absent.

Lemma replace_from_absent (open close repl before s : jsstring) :
  occurs open s = false → replace_from open close repl before 0 s = s.
Proof.
  revert before. induction s as [|c s IH]; intros before; [done|].
  cbn [occurs]. intros [Hs Ho]%orb_false_elim. cbn [replace_from].
  unfold match_here. rewrite Hs. f_equal. by apply IH.
Qed.

Lemma replace_property_absent (n v c : jsstring) :
  occurs (open_tag n) c = false → replace_property n v c = c.
Proof. apply replace_from_absent. Qed.

Lemma apply_passes_absent (ps : list (jsstring * jsstring)) (c : jsstring) :
  Forall (λ nv, occurs (open_tag nv.1) c = false) ps → apply_passes ps c = c.
Proof.
  induction 1 as [|[n v] ps Hn _ IH]; [done|].
  unfold apply_passes. cbn [foldl fst snd].
  by rewrite replace_property_absent.
Qed.

End Absent.

(** X8. [updateProjectFile] only rewrites properties that are there: for a
    version that matches the pattern, a project file in which none of the
    five opening tags occurs is not written, and nothing is logged. *)
Theorem update_adds_no_property (p : ProjectVersion) (w : world)
    (content : jsstring) :
  files w !! path p = Some content →
  is_Some (version_match (version p)) →
  (∀ n, n ∈ property_names → occurs (open_tag n) content = false) →
  updateProjectFile p w = (inr tt, w).
Proof.
  intros Hf [g Hm] Habsent. rewrite updateProjectFile_eq, Hf, Hm. cbv zeta.
  rewrite updated_content_passes, apply_passes_absent.
  - unfold eqb. by rewrite bool_decide_true.
  - destruct (passes_names p g) as [_ Hn]. eapply Forall_impl; [exact Hn|].
    intros nv. apply Habsent.
Qed.

Lemma update_adds_no_property_witness :
  let p := Demo.record "A" "/repo/src/A/A.csproj" "1.2.3" true in
  let w := World {[ path p := str "<Project><TargetFramework>net8.0</TargetFramework></Project>" ]} ∅ [] in
  updateProjectFile p w = (inr tt, w).
Proof.
  intros p w.
  apply (update_adds_no_property p w
           (str "<Project><TargetFramework>net8.0</TargetFramework></Project>")).
  - reflexivity.
  - eexists. vm_compute. reflexivity.
  - intros n Hn. unfold property_names in Hn.
    repeat (apply elem_of_cons in Hn as [->|Hn]);
      [..|by apply elem_of_nil in Hn]; vm_compute; reflexivity.
Defined.

(** X9. After the passes of [updateProjectFile] for a version with neither
    [<] nor [$] in it, every stretch that the pattern of one of its
    properties matches in the text is that property with its new value,
    with no further closing tag of it behind on the line. *)
Theorem update_settles (p : ProjectVersion) (g : version_groups)
    (content : jsstring) :
  version_match (version p) = Some g →
  plain (version p) → literal (version p) →
  ∀ name value, (name, value) ∈ passes p g →
    settled (open_tag name) (close_tag name) value (updated_content p g content).
Proof.
  intros Hm Hp Hd name value Hin. rewrite updated_content_passes.
  destruct (passes_names p g) as [Hnd Hn].
  pose proof (passes_values p g Hm Hp Hd) as Hv.
  assert (Hps : Forall (λ nv, nv.1 ∈ property_names ∧ good_value nv.2)
                  (passes p g)).
  { rewrite Forall_forall in Hn, Hv |- *. intros nv Hnv. split; auto. }
  pose proof (apply_passes_settled (passes p g) content Hnd Hps) as Hs.
  rewrite Forall_forall in Hs. apply (Hs (name, value) Hin).
Qed.

Lemma update_settles_witness :
  let p := Demo.record "A" "/repo/src/A/A.csproj" "1.2.3" true in
  let g := VersionGroups (str "1") (str "2") (str "3") None in
  settled (open_tag (str "VersionMajor")) (close_tag (str "VersionMajor"))
    (str "1")
    (updated_content p g (str "<VersionMajor>0</VersionMajor></VersionMajor>")).
Proof.
  intros p g.
  apply (update_settles p g _ eq_refl).
  - apply (bool_decide_unpack _). vm_compute. exact I.
  - apply (bool_decide_unpack _). vm_compute. exact I.
  - apply (bool_decide_unpack _). vm_compute. exact I.
Defined.

(** ** Which files an update can change *)

Section Confined.

Context (S : jsstring → Prop).

Lemma confined_ret {A} (a : A) : confined S (mret a).
Proof. by intros w. Qed.

Lemma confined_throw {A} (e : js_error) : confined S (@throw A e).
Proof. by intros w. Qed.

Lemma confined_emit (e : event) : confined S (emit e).
Proof. by intros w. Qed.

Lemma confined_bind {A B} (m : M A) (k : A → M B) :
  confined S m → (∀ a, confined S (k a)) → confined S (m ≫= k).
Proof.
  intros Hm Hk w. unfold mbind, M_bind.
  destruct (Hm w) as [Hl Hf]. destruct (m w) as [[e|a] w1]; [done|].
  destruct (Hk a w1) as [Hl' Hf']. cbn [snd] in *. split.
  - by rewrite Hl'.
  - intros f Hout. by rewrite Hf', Hf.
Qed.

Lemma confined_try_catch {A} (m : M A) (h : js_error → M A) :
  confined S m → (∀ e, confined S (h e)) → confined S (try_catch m h).
Proof.
  intros Hm Hh w. unfold try_catch.
  destruct (Hm w) as [Hl Hf]. destruct (m w) as [[e|a] w1]; [|done].
  destruct (Hh e w1) as [Hl' Hf']. cbn [snd] in *. split.
  - by rewrite Hl'.
  - intros f Hout. by rewrite Hf', Hf.
Qed.

Lemma confined_for_each {A} (l : list A) (body : A → M unit) :
  (∀ x, x ∈ l → confined S (body x)) → confined S (for_each l body).
Proof.
  induction l as [|x l IH]; intros Hbody; [apply confined_ret|].
  apply confined_bind; [apply Hbody; by left|].
  intros _. apply IH. intros y Hy. apply Hbody. by right.
Qed.

Lemma confined_readFile (file : jsstring) : confined S (readFile file).
Proof. intros w. unfold readFile. by destruct (files w !! file). Qed.

Lemma confined_writeFile (file content : jsstring) :
  S file → confined S (writeFile file content).
Proof.
  intros HS w. unfold writeFile. case_bool_decide; [done|].
  split; [done|]. intros f Hout. cbn [snd files].
  apply lookup_insert_ne. by intros <-.
Qed.

Lemma confined_updateProjectFile (p : ProjectVersion) :
  S (path p) → confined S (updateProjectFile p).
Proof.
  intros HS. unfold updateProjectFile.
  apply confined_bind; [apply confined_readFile|]. intros content.
  destruct (version_match (version p)) as [g|]; [|apply confined_emit].
  destruct (negb _); [|apply confined_ret].
  apply confined_bind; [by apply confined_writeFile|].
  intros _. apply confined_emit.
Qed.

Lemma confined_writeMrVersionPropsFile (env : Env) (p : ProjectVersion) :
  S (props_path env p) → confined S (writeMrVersionPropsFile env p).
Proof.
  intros HS. unfold writeMrVersionPropsFile.
  destruct (version_match (version p)) as [g|]; [|apply confined_emit].
  apply confined_bind; [by apply confined_writeFile|].
  intros _. apply confined_emit.
Qed.

End Confined.

Lemma confined_updateProjects (env : Env) (ps : list ProjectVersion)
    (up wr : bool) :
  confined (λ f, (up = true ∧ f ∈ path <$> ps)
                 ∨ (wr = true ∧ f ∈ props_path env <$> ps))
    (updateProjects env ps up wr).
Proof.
  apply confined_for_each. intros p Hp.
  apply confined_try_catch; [|intros e; apply confined_emit].
  apply confined_bind.
  - destruct up; [|apply confined_ret]. apply confined_updateProjectFile.
    left. split; [done|]. by apply list_elem_of_fmap_2.
  - intros _. destruct wr; [|apply confined_ret].
    apply confined_writeMrVersionPropsFile.
    right. split; [done|]. by apply (list_elem_of_fmap_2 (props_path env)).
Qed.

(** X10. [updateProjectFile] changes no file but the project file, never
    makes or removes one, and when it changes the project file it logs the
    write and the line that says so, and nothing else. *)
Theorem updateProjectFile_footprint (p : ProjectVersion) (w : world) :
  let w' := (updateProjectFile p w).2 in
  (∀ f, f ≠ path p → files w' !! f = files w !! f)
  ∧ dom (files w') = dom (files w)
  ∧ (files w' ≠ files w →
     ∃ content,
       files w' !! path p = Some content
       ∧ events w' = events w
           ++ [FileWritten (path p) content;
               Info (str "Updated version properties in " ++ project p)]).
Proof.
  intros w'. subst w'. rewrite updateProjectFile_eq.
  destruct (files w !! path p) as [content|] eqn:Hf; [|done].
  destruct (version_match (version p)) as [g|]; [|done]. cbv zeta.
  destruct (eqb _ content); [done|].
  destruct (bool_decide (path p ∈ locked w)); [done|]. cbn [snd files events].
  split_and!.
  - intros f Hne. by apply lookup_insert_ne.
  - rewrite dom_insert_L. apply elem_of_dom_2 in Hf.
    apply subseteq_union_1_L. by apply singleton_subseteq_l.
  - intros _. eexists. split; [apply lookup_insert_eq|done].
Qed.

(** X11. [updateProjects] changes no file but the project files of its
    records, when it is to update them, and the [MrVersion.props] next to
    them, when it is to write these; the locks stay as they are. *)
Theorem updateProjects_footprint (env : Env) (ps : list ProjectVersion)
    (up wr : bool) (w : world) (f : jsstring) :
  (up = true → f ∉ path <$> ps) →
  (wr = true → f ∉ props_path env <$> ps) →
  files (updateProjects env ps up wr w).2 !! f = files w !! f
  ∧ locked (updateProjects env ps up wr w).2 = locked w.
Proof.
  intros Hup Hwr. destruct (confined_updateProjects env ps up wr w) as [Hl Hf].
  split; [|done]. apply Hf. intros [[-> Hin]|[-> Hin]]; [by apply Hup|by apply Hwr].
Qed.

Lemma updateProjects_footprint_witness :
  let p := Demo.record "A" "/repo/src/A/A.csproj" "1.2.3" true in
  let w := World {[ path p := str "<Version>1.0.0</Version>";
                    str "/repo/README.md" := str "<Version>1.0.0</Version>" ]}
                 ∅ [] in
  let w' := (updateProjects (Demo.env [] [] []) [p] true true w).2 in
  files w' !! str "/repo/README.md" = Some (str "<Version>1.0.0</Version>").
Proof.
  intros p w w'.
  refine (eq_trans (proj1 (updateProjects_footprint (Demo.env [] [] []) [p]
                             true true w (str "/repo/README.md") _ _)) _).
  - intros _. apply (bool_decide_unpack _). vm_compute. exact I.
  - intros _. apply (bool_decide_unpack _). vm_compute. exact I.
  - vm_compute. reflexivity.
Defined.

(** ** The two steps for one record *)

Section Steps.

Variable env : Env.

(** Every way [writeMrVersionPropsFile] can go. *)
Lemma writeMrVersionPropsFile_eq (p : ProjectVersion) (w : world) :
  writeMrVersionPropsFile env p w =
  match version_match (version p) with
  | None =>
      (inr tt, warned w (str "Cannot parse version " ++ version p
                         ++ str " for " ++ project p))
  | Some g =>
      if bool_decide (props_path env p ∈ locked w)
      then (inl (EACCES (props_path env p)), w)
      else (inr tt,
            World (<[props_path env p := props_content p g]> (files w))
              (locked w)
              (events w
               ++ [FileWritten (props_path env p) (props_content p g);
                   Info (str "Created MrVersion.props for " ++ project p)]))
  end.
Proof.
  unfold writeMrVersionPropsFile. fold (props_path env p).
  destruct (version_match (version p)) as [g|]; [|done].
  unfold mbind, M_bind, writeFile.
  destruct (bool_decide (props_path env p ∈ locked w)); [done|].
  unfold info, emit. cbn [files locked events]. by rewrite <-app_assoc.
Qed.

End Steps.

(** X12. The two steps for a record are one attempt. When the project
    file cannot be read, or must change and cannot be written, the
    [MrVersion.props] of the record is not written either: no file changes
    and the log gets the one warning. When it is the [MrVersion.props]
    that cannot be written, the project file keeps the update it got
    before. *)
Theorem update_project_is_one_attempt (env : Env) (p : ProjectVersion)
    (g : version_groups) (w : world) :
  version_match (version p) = Some g →
  (files w !! path p = None →
   update_project env true true p w
   = (inr tt, warned w (update_failure p (ENOENT (path p)))))
  ∧ (∀ content,
       files w !! path p = Some content →
       updated_content p g content ≠ content →
       path p ∈ locked w →
       update_project env true true p w
       = (inr tt, warned w (update_failure p (EACCES (path p)))))
  ∧ (∀ content,
       files w !! path p = Some content →
       path p ∉ locked w →
       props_path env p ∈ locked w →
       ∃ w1,
         updateProjectFile p w = (inr tt, w1)
         ∧ files w1 = <[path p := updated_content p g content]> (files w)
         ∧ update_project env true true p w
           = (inr tt, warned w1 (update_failure p (EACCES (props_path env p))))).
Proof.
  intros Hm. split_and!.
  - intros Hf. rewrite update_project_outcome. unfold update_attempt.
    unfold mbind, M_bind. by rewrite updateProjectFile_eq, Hf.
  - intros content Hf Hne Hl. rewrite update_project_outcome.
    unfold update_attempt, mbind, M_bind.
    rewrite updateProjectFile_eq, Hf, Hm. cbv zeta. unfold eqb.
    by rewrite bool_decide_false, bool_decide_true.
  - intros content Hf Hl Hpl. rewrite update_project_outcome.
    unfold update_attempt, mbind, M_bind.
    rewrite updateProjectFile_eq, Hf, Hm. cbv zeta. unfold eqb.
    rewrite (bool_decide_false (path p ∈ locked w)) by done.
    case_bool_decide as Hu.
    + exists w. split; [done|]. split; [by rewrite Hu, insert_id|].
      rewrite writeMrVersionPropsFile_eq, Hm. by rewrite bool_decide_true.
    + eexists. split; [done|]. split; [done|].
      rewrite writeMrVersionPropsFile_eq, Hm. cbn [locked].
      by rewrite bool_decide_true.
Qed.

Lemma update_project_is_one_attempt_witness :
  let p := Demo.record "A" "/repo/src/A/A.csproj" "1.2.3" true in
  let w := World ∅ ∅ [] in
  update_project (Demo.env [] [] []) true true p w
  = (inr tt, warned w (update_failure p (ENOENT (path p)))).
Proof.
  intros p w.
  apply (proj1 (update_project_is_one_attempt (Demo.env [] [] []) p
                  (VersionGroups (str "1") (str "2") (str "3") None) w eq_refl)).
  reflexivity.
Defined.

(** X13. [writeMrVersionPropsFile] writes whenever the version matches the
    pattern and the path takes the write, also when the file already holds
    the text: a second call leaves the files as they are and logs the same
    write and the same line again. *)
Theorem props_file_is_written_every_time (env : Env) (p : ProjectVersion)
    (g : version_groups) (w : world) :
  version_match (version p) = Some g →
  props_path env p ∉ locked w →
  let written := [FileWritten (props_path env p) (props_content p g);
                  Info (str "Created MrVersion.props for " ++ project p)] in
  ∃ w1 w2,
    writeMrVersionPropsFile env p w = (inr tt, w1)
    ∧ writeMrVersionPropsFile env p w1 = (inr tt, w2)
    ∧ files w1 = <[props_path env p := props_content p g]> (files w)
    ∧ events w1 = events w ++ written
    ∧ files w2 = files w1
    ∧ events w2 = events w1 ++ written.
Proof.
  intros Hm Hl written. eexists _, _.
  rewrite !writeMrVersionPropsFile_eq, Hm.
  rewrite bool_decide_false by done. split; [reflexivity|].
  cbn [locked]. rewrite bool_decide_false by done. split; [reflexivity|].
  cbn [files events]. split_and!; [done|done| |done].
  apply insert_insert_eq.
Qed.

Lemma props_file_is_written_every_time_witness :
  let p := Demo.record "A" "/repo/src/A/A.csproj" "1.2.3" true in
  ∃ w1 w2,
    writeMrVersionPropsFile (Demo.env [] [] []) p Demo.empty_world = (inr tt, w1)
    ∧ writeMrVersionPropsFile (Demo.env [] [] []) p w1 = (inr tt, w2)
    ∧ files w2 = files w1.
Proof.
  intros p.
  destruct (props_file_is_written_every_time (Demo.env [] [] []) p
              (VersionGroups (str "1") (str "2") (str "3") None)
              Demo.empty_world eq_refl)
    as (w1 & w2 & H1 & H2 & _ & _ & H3 & _).
  - apply (bool_decide_unpack _). vm_compute. exact I.
  - by exists w1, w2.
Defined.

(** ** A property on a line of its own *)

Section Element.

Lemma dotstar_line_start (cq b : jsstring) :
  one_line cq → starts_line b → dotstar_then (LT :: cq) b = None.
Proof.
  intros Hc [->|(nl & b0 & -> & Hnl)]; [done|].
  exact (dotstar_line_end (LT :: cq) [] nl b0 (close_line cq Hc) Hnl).
Qed.

Lemma occurs_nil (p : jsstring) : p ≠ [] → occurs p [] = false.
Proof. by destruct p. Qed.

Lemma occurs_plain (pq q t : jsstring) :
  plain q → occurs (LT :: pq) (q ++ t) = occurs (LT :: pq) t.
Proof.
  induction 1 as [|x q Hx _ IH]; [done|]. cbn [app occurs starts_with].
  rewrite IH. by destruct (N.eqb_spec LT x) as [<-|].
Qed.

Lemma occurs_over (pq tq t : jsstring) :
  plain tq → clash (LT :: pq) (LT :: tq) = false →
  occurs (LT :: pq) ((LT :: tq) ++ t) = occurs (LT :: pq) t.
Proof.
  intros Ht Hc. change ((LT :: tq) ++ t) with (LT :: (tq ++ t)).
  cbn [occurs]. change (LT :: (tq ++ t)) with ((LT :: tq) ++ t).
  rewrite clash_free by done. by rewrite occurs_plain.
Qed.

(** The pass for a property, on a line that holds one element of it. *)
Lemma replace_property_element (n v a pre old post b : jsstring) :
  n ∈ property_names → literal v →
  ends_line a → starts_line b →
  plain pre → one_line old → plain post → one_line post →
  replace_property n v
    (a ++ pre ++ open_tag n ++ old ++ close_tag n ++ post ++ b)
  = replace_property n v a
    ++ pre ++ open_tag n ++ v ++ close_tag n ++ post
    ++ replace_property n v b
  ∧ ends_line (replace_property n v a)
  ∧ starts_line (replace_property n v b).
Proof.
  intros Hn Hv Ha Hb Hpre Hold Hpost Lpost.
  destruct (replace_property_frame n v a [] b Hn Hv Ha Hb)
    as (_ & Ha' & Hb'); [by apply occurs_nil|].
  split; [|done]. destruct (property_name_facts n Hn).
  unfold replace_property, open_tag, close_tag in *.
  change ([LT] ++ n ++ [GT]) with (LT :: n ++ [GT]) in *.
  change ([LT; SLASH] ++ n ++ [GT]) with (LT :: SLASH :: n ++ [GT]) in *.
  set (go := replace_all (LT :: n ++ [GT]) (LT :: SLASH :: n ++ [GT])
               ((LT :: n ++ [GT]) ++ v ++ LT :: SLASH :: n ++ [GT])) in *.
  assert (Hrest : go (pre ++ (LT :: n ++ [GT]) ++ old
                      ++ (LT :: SLASH :: n ++ [GT]) ++ post ++ b)
                  = pre ++ (LT :: n ++ [GT]) ++ v
                    ++ (LT :: SLASH :: n ++ [GT]) ++ post ++ go b).
  { subst go. rewrite go_plain by done.
    rewrite (go_hit (n ++ [GT]) (SLASH :: n ++ [GT])); try done.
    - by rewrite go_plain by done.
    - rewrite dotstar_plain by done.
      by rewrite dotstar_line_start. }
  destruct Ha as [->|(a0 & nl & -> & Hnl)]; [exact Hrest|].
  set (rest := pre ++ _) in *.
  rewrite <-(app_assoc a0 [nl] rest). change ([nl] ++ rest) with (nl :: rest).
  subst go.
  rewrite !(go_line_split (n ++ [GT]) (SLASH :: n ++ [GT])) by done.
  rewrite Hrest. by rewrite <-app_assoc.
Qed.

(** The pass for another property leaves such a line alone. *)
Lemma replace_property_other (n n' v' a pre val post b : jsstring) :
  n ∈ property_names → n' ∈ property_names → n ≠ n' → literal v' →
  ends_line a → starts_line b →
  plain pre → plain val → plain post →
  replace_property n' v'
    (a ++ pre ++ open_tag n ++ val ++ close_tag n ++ post ++ b)
  = replace_property n' v' a
    ++ pre ++ open_tag n ++ val ++ close_tag n ++ post
    ++ replace_property n' v' b
  ∧ ends_line (replace_property n' v' a)
  ∧ starts_line (replace_property n' v' b).
Proof.
  intros Hn Hn' Hne Hv Ha Hb Hpre Hval Hpost.
  destruct (property_names_apart n n' Hn Hn' Hne) as (C1 & C2 & _ & _).
  destruct (property_name_facts n Hn).
  destruct (replace_property_frame n' v' a
              (pre ++ open_tag n ++ val ++ close_tag n ++ post) b
              Hn' Hv Ha Hb) as (E & Ha' & Hb').
  - unfold open_tag, close_tag.
    change ([LT] ++ n' ++ [GT]) with (LT :: n' ++ [GT]).
    change ([LT] ++ n ++ [GT]) with (LT :: n ++ [GT]).
    change ([LT; SLASH] ++ n ++ [GT]) with (LT :: SLASH :: n ++ [GT]).
    rewrite occurs_plain by done. rewrite occurs_over by done.
    rewrite occurs_plain by done. rewrite occurs_over by done.
    rewrite <-(app_nil_r post), occurs_plain by done. done.
  - split; [|done]. rewrite <-!app_assoc in E. exact E.
Qed.

Lemma apply_passes_cons (n v : jsstring) (ps : list (jsstring * jsstring))
    (c : jsstring) :
  apply_passes ((n, v) :: ps) c = apply_passes ps (replace_property n v c).
Proof. reflexivity. Qed.

(** All the passes, on a line that holds one element of a property. *)
Lemma apply_passes_element (ps : list (jsstring * jsstring))
    (n a pre val post b : jsstring) :
  n ∈ property_names →
  NoDup ps.*1 →
  Forall (λ nv, nv.1 ∈ property_names ∧ good_value nv.2) ps →
  ends_line a → starts_line b →
  plain pre → plain val → one_line val → plain post → one_line post →
  apply_passes ps (a ++ pre ++ open_tag n ++ val ++ close_tag n ++ post ++ b)
  = apply_passes ps a
    ++ pre ++ open_tag n ++ default val (list_to_map (M := gmap _ _) ps !! n)
    ++ close_tag n ++ post
    ++ apply_passes ps b.
Proof.
  intros Hn. revert a b val.
  induction ps as [|[n' v'] ps IH]; intros a b val Hnd Hps Ha Hb Hpre Hval Lval
    Hpost Lpost; [done|].
  rewrite fmap_cons in Hnd. apply NoDup_cons in Hnd as [Hnew Hnd].
  apply Forall_cons in Hps as [[Hn' (Pv & Lv & Dv)] Hps].
  change (n' ∈ property_names) in Hn'. change (n' ∉ ps.*1) in Hnew.
  rewrite !(apply_passes_cons n' v' ps).
  change (list_to_map ((n', v') :: ps))
    with (<[n' := v']> (list_to_map (M := gmap jsstring jsstring) ps)).
  destruct (decide (n' = n)) as [->|Hne].
  - destruct (replace_property_element n v' a pre val post b)
      as (-> & Ha' & Hb'); try done.
    rewrite IH by done. rewrite lookup_insert_eq. cbn [default].
    by rewrite (not_elem_of_list_to_map_1 _ _ Hnew).
  - destruct (replace_property_other n n' v' a pre val post b)
      as (-> & Ha' & Hb'); try done.
    rewrite IH by done. by rewrite lookup_insert_ne.
Qed.

End Element.

(** X14. What [updateProjectFile] computes for a property on a line of its
    own. For a version with neither [<] nor [$] in it and a property it
    has a pass for: where a line holds one element of the property, with no
    [<] before it, in its old value and behind it, the new text has the
    element with the new value on that line, the rest of the line as it
    was, and the text before and behind the line as the passes leave it on
    its own. *)
Theorem update_sets_element (p : ProjectVersion) (g : version_groups)
    (name value a pre old post b : jsstring) :
  version_match (version p) = Some g →
  plain (version p) → literal (version p) →
  (name, value) ∈ passes p g →
  ends_line a → starts_line b →
  plain pre → plain old → one_line old → plain post → one_line post →
  updated_content p g
    (a ++ pre ++ open_tag name ++ old ++ close_tag name ++ post ++ b)
  = updated_content p g a
    ++ pre ++ open_tag name ++ value ++ close_tag name ++ post
    ++ updated_content p g b.
Proof.
  intros Hm Hp Hd Hin Ha Hb Hpre Hold Lold Hpost Lpost.
  rewrite !updated_content_passes.
  destruct (passes_names p g) as [Hnd Hn].
  pose proof (passes_values p g Hm Hp Hd) as Hv.
  assert (Hps : Forall (λ nv, nv.1 ∈ property_names ∧ good_value nv.2)
                  (passes p g)).
  { rewrite Forall_forall in Hn, Hv |- *. intros nv Hnv. split; auto. }
  rewrite apply_passes_element; try done.
  - by rewrite (elem_of_list_to_map_1 _ _ _ Hnd Hin).
  - rewrite Forall_forall in Hn. apply (Hn _ Hin).
Qed.

Lemma update_sets_element_witness :
  let p := Demo.record "A" "/repo/src/A/A.csproj" "1.2.3" true in
  let g := VersionGroups (str "1") (str "2") (str "3") None in
  updated_content p g
    (str "<Project>" ++ [LF] ++ str "  " ++ open_tag (str "Version")
     ++ str "1.0.0" ++ close_tag (str "Version") ++ str " " ++ [LF]
     ++ str "</Project>")
  = updated_content p g (str "<Project>" ++ [LF])
    ++ str "  " ++ open_tag (str "Version") ++ str "1.2.3"
    ++ close_tag (str "Version") ++ str " "
    ++ updated_content p g ([LF] ++ str "</Project>").
Proof.
  intros p g.
  pose proof (update_sets_element p g (str "Version") (str "1.2.3")
                (str "<Project>" ++ [LF]) (str "  ") (str "1.0.0") (str " ")
                ([LF] ++ str "</Project>") eq_refl) as H.
  rewrite <-!app_assoc in H. apply H.
  - decide_closed.
  - decide_closed.
  - decide_closed.
  - right. by exists (str "<Project>"), LF.
  - right. by exists LF, (str "</Project>").
  - decide_closed.
  - decide_closed.
  - decide_closed.
  - decide_closed.
  - decide_closed.
Defined.

(** ** Every way [run] can go *)

Section RunPaths.

Variable env : Env.

Lemma throw_bind {A B} (e : js_error) (k : A → M B) : throw e ≫= k = throw e.
Proof. reflexivity. Qed.

Lemma bind_stop {A B} (m : M A) (k : A → M B) (w w1 : world) (e : js_error) :
  m w = (inl e, w1) → (m ≫= k) w = (inl e, w1).
Proof. intros H. unfold mbind, M_bind. by rewrite H. Qed.

(** Neither the search for the project files nor the tool touches the
    world. *)
Lemma findProjectFiles_pure (pattern repositoryPath : jsstring) :
  ∃ r, ∀ w, findProjectFiles env pattern repositoryPath w = (r, w).
Proof.
  unfold findProjectFiles. destruct (glob env pattern) as [e|found].
  - by exists (inl e).
  - by eexists (inr _).
Qed.

Lemma calculateProjectVersion_pure (options : CalculateVersionOptions) :
  ∃ r, ∀ w, calculateProjectVersion env options w = (r, w).
Proof.
  unfold calculateProjectVersion.
  destruct (getExecOutput env _ _) as [e|output]; [by exists (inl e)|].
  cbn [lift]. rewrite ret_bind. destruct (negb _); [by eexists (inl _)|].
  unfold try_catch. case_bool_decide; [by eexists (inl _)|].
  destruct (JSON_parse env _) as [e|p]; [by eexists (inl _)|by exists (inr p)].
Qed.

Lemma map_m_pure {A B} (f : A → M B) (l : list A) :
  (∀ x, ∃ r, ∀ w, f x w = (r, w)) → ∃ r, ∀ w, map_m f l w = (r, w).
Proof.
  intros Hf. induction l as [|x l (rl & IH)]; [by exists (inr [])|].
  destruct (Hf x) as ([e|y] & Hx).
  - exists (inl e). intros w. cbn [map_m]. by apply bind_stop.
  - destruct rl as [e|ys].
    + exists (inl e). intros w. cbn [map_m].
      rewrite (bind_peel _ _ _ _ _ (Hx w)). by apply bind_stop.
    + exists (inr (y :: ys)). intros w. cbn [map_m].
      rewrite (bind_peel _ _ _ _ _ (Hx w)).
      by rewrite (bind_peel _ _ _ _ _ (IH w)).
Qed.

(** The loop over the project files stops at the first one the tool
    fails for. *)
Lemma map_m_first_failure {A B} (f : A → M B) (ok : list A) (bad : A)
    (rest : list A) (e : js_error) :
  Forall (λ x, ∃ y, ∀ w, f x w = (inr y, w)) ok →
  (∀ w, f bad w = (inl e, w)) →
  ∀ w, map_m f (ok ++ bad :: rest) w = (inl e, w).
Proof.
  intros Hok Hbad w. induction Hok as [|x ok [y Hx] _ IH]; cbn [app map_m].
  - by apply bind_stop.
  - rewrite (bind_peel _ _ _ _ _ (Hx w)). by apply bind_stop.
Qed.

Lemma map_m_nil_result {A B} (f : A → M B) (l : list A) (w w' : world) :
  map_m f l w = (inr [], w') → l = [].
Proof.
  destruct l as [|x l]; [done|]. cbn [map_m]. unfold mbind, M_bind.
  destruct (f x w) as [[e|y] w1]; [done|].
  by destruct (map_m f l w1) as [[e|ys] w2].
Qed.

Lemma map_m_length {A B} (f : A → M B) (l : list A) (ys : list B)
    (w w' : world) :
  map_m f l w = (inr ys, w') → length ys = length l.
Proof.
  revert ys w. induction l as [|x l IH]; intros ys w; cbn [map_m].
  - by intros [= <- <-].
  - unfold mbind, M_bind. destruct (f x w) as [[e|y] w1]; [done|].
    destruct (map_m f l w1) as [[e|zs] w2] eqn:Hl; [done|].
    intros [= <- <-]. cbn [length]. f_equal. by apply (IH zs w1).
Qed.

#[local] Opaque set_version_components updateProjects str.

(** With no project file and fail-on-no-changes. *)
Lemma run_stops_without_files (w : world) (fail upd wr ovi dry incl : bool)
    (found : list jsstring) :
  getBooleanInput env (str "fail-on-no-changes") = inr fail →
  getBooleanInput env (str "update-project-properties") = inr upd →
  getBooleanInput env (str "write-mrversion-props") = inr wr →
  getBooleanInput env (str "output-version-information") = inr ovi →
  getBooleanInput env (str "dry-run") = inr dry →
  getBooleanInput env (str "include-test-projects") = inr incl →
  (∀ w, findProjectFiles env
          (or_else (getInput env (str "projects")) (str "**/*.csproj"))
          (or_else (getInput env (str "repository-path")) (str ".")) w
        = (inr found, w)) →
  found = [] → fail = true →
  run env w
  = (inr tt,
     World (files w) (locked w)
       (events w ++ run_preamble found incl
        ++ [SetFailed (str "No project files found and fail-on-no-changes is enabled")])).
Proof.
  intros Hfail Hupd Hwr Hovi Hdry Hincl Hfound -> ->.
  unfold run, try_catch.
  rewrite Hfail, Hupd, Hwr, Hovi, Hdry, Hincl. cbn [lift].
  rewrite !ret_bind. unfold info, warning, setOutput, setFailed.
  rewrite emit_bind, (bind_peel _ _ _ _ _ (Hfound _)); world_simpl.
  rewrite emit_bind; world_simpl. rewrite if_emit_bind; world_simpl.
  cbn [length bool_decide andb]. rewrite bool_decide_true by done.
  cbn [andb]. unfold emit, run_preamble. world_simpl.
  by rewrite <-!app_assoc.
Qed.

(** The tool fails for a project file. *)
Lemma run_stops_on_tool_failure (w : world) (fail upd wr ovi dry incl : bool)
    (found : list jsstring) (e : js_error) :
  getBooleanInput env (str "fail-on-no-changes") = inr fail →
  getBooleanInput env (str "update-project-properties") = inr upd →
  getBooleanInput env (str "write-mrversion-props") = inr wr →
  getBooleanInput env (str "output-version-information") = inr ovi →
  getBooleanInput env (str "dry-run") = inr dry →
  getBooleanInput env (str "include-test-projects") = inr incl →
  (∀ w, findProjectFiles env
          (or_else (getInput env (str "projects")) (str "**/*.csproj"))
          (or_else (getInput env (str "repository-path")) (str ".")) w
        = (inr found, w)) →
  (∀ w, map_m (λ f, calculateProjectVersion env (run_options env dry f)) found w
        = (inl e, w)) →
  run env w
  = (inr tt,
     World (files w) (locked w)
       (events w ++ run_preamble found incl ++ [run_failure e])).
Proof.
  intros Hfail Hupd Hwr Hovi Hdry Hincl Hfound Hres.
  assert (Hne : bool_decide (length found = 0%nat) = false).
  { apply bool_decide_eq_false. intros Hlen. destruct found; [|done].
    by specialize (Hres w). }
  unfold run, try_catch.
  rewrite Hfail, Hupd, Hwr, Hovi, Hdry, Hincl. cbn [lift].
  rewrite !ret_bind. unfold info, warning, setOutput, setFailed.
  rewrite emit_bind, (bind_peel _ _ _ _ _ (Hfound _)); world_simpl.
  rewrite emit_bind; world_simpl. rewrite if_emit_bind; world_simpl.
  rewrite Hne. cbn [andb]. rewrite ret_bind.
  unfold run_options in Hres. rewrite (bind_stop _ _ _ _ _ (Hres _)).
  unfold emit, run_preamble, run_failure. world_simpl.
  by rewrite <-!app_assoc.
Qed.

(** No version has changed, with fail-on-no-changes. *)
Lemma run_stops_without_changes (w : world) (upd wr ovi dry incl : bool)
    (found : list jsstring) (results : list ProjectVersion) :
  getBooleanInput env (str "fail-on-no-changes") = inr true →
  getBooleanInput env (str "update-project-properties") = inr upd →
  getBooleanInput env (str "write-mrversion-props") = inr wr →
  getBooleanInput env (str "output-version-information") = inr ovi →
  getBooleanInput env (str "dry-run") = inr dry →
  getBooleanInput env (str "include-test-projects") = inr incl →
  (∀ w, findProjectFiles env
          (or_else (getInput env (str "projects")) (str "**/*.csproj"))
          (or_else (getInput env (str "repository-path")) (str ".")) w
        = (inr found, w)) →
  (∀ w, map_m (λ f, calculateProjectVersion env (run_options env dry f)) found w
        = (inr results, w)) →
  let all := if incl then results
             else filter (λ p, negb (isTestProject p)) results in
  found ≠ [] → filter (λ p, versionChanged p) all = [] →
  run env w
  = (inr tt,
     World (files w) (locked w)
       (events w ++ run_preamble found incl ++ run_notes found results incl
        ++ [SetFailed (str "No version changes detected and fail-on-no-changes is enabled")])).
Proof.
  intros Hfail Hupd Hwr Hovi Hdry Hincl Hfound Hres all Hne Hnone.
  assert (Hlen : bool_decide (length found = 0%nat) = false).
  { apply bool_decide_eq_false. by destruct found. }
  unfold run, try_catch.
  rewrite Hfail, Hupd, Hwr, Hovi, Hdry, Hincl. cbn [lift].
  rewrite !ret_bind. unfold info, warning, setOutput, setFailed.
  rewrite emit_bind, (bind_peel _ _ _ _ _ (Hfound _)); world_simpl.
  rewrite emit_bind; world_simpl. rewrite if_emit_bind; world_simpl.
  rewrite Hlen. cbn [andb]. rewrite ret_bind.
  unfold run_options in Hres. rewrite (bind_peel _ _ _ _ _ (Hres _)).
  rewrite (bind_peel _ _ _ _ _ (analyzeResults_eq _ _ _)); world_simpl.
  cbn [hasChanges projects changedProjects summary].
  fold all. rewrite Hnone. cbn [length]. rewrite bool_decide_false by lia.
  cbn [andb negb]. unfold emit, run_preamble, run_notes. world_simpl.
  rewrite Hlen. by rewrite <-!app_assoc.
Qed.

(** The run that goes on to its outputs. *)
Lemma run_world (w : world) (fail upd wr ovi dry incl : bool)
    (found : list jsstring) (results : list ProjectVersion) :
  getBooleanInput env (str "fail-on-no-changes") = inr fail →
  getBooleanInput env (str "update-project-properties") = inr upd →
  getBooleanInput env (str "write-mrversion-props") = inr wr →
  getBooleanInput env (str "output-version-information") = inr ovi →
  getBooleanInput env (str "dry-run") = inr dry →
  getBooleanInput env (str "include-test-projects") = inr incl →
  (∀ w, findProjectFiles env
          (or_else (getInput env (str "projects")) (str "**/*.csproj"))
          (or_else (getInput env (str "repository-path")) (str ".")) w
        = (inr found, w)) →
  (∀ w, map_m (λ f, calculateProjectVersion env (run_options env dry f)) found w
        = (inr results, w)) →
  let all := if incl then results
             else filter (λ p, negb (isTestProject p)) results in
  let changed := filter (λ p, versionChanged p) all in
  (fail = true → changed ≠ []) →
  let analysisResult :=
    {| projects := all; changedProjects := changed;
       hasChanges := bool_decide (0 < length changed)%nat;
       summary := generateSummary all changed |} in
  let w1 := World (files w) (locked w)
              (events w ++ run_preamble found incl
               ++ run_notes found results incl
               ++ aggregate_outputs env all changed ++ version_outputs all) in
  let w2 := if upd || wr
            then if dry
                 then World (files w1) (locked w1)
                        (events w1
                         ++ [Info (str "[DRY RUN] Would update project properties")])
                 else (updateProjects env all upd wr w1).2
            else w1 in
  run env w
  = (inr tt,
     World (files w2) (locked w2)
       (events w2 ++ run_closing env ovi analysisResult results)).
Proof.
  intros Hfail Hupd Hwr Hovi Hdry Hincl Hfound Hres all changed Hgo
    analysisResult w1 w2.
  assert (Hc1 : bool_decide (length found = 0%nat) && fail = false).
  { destruct fail; [|by rewrite andb_false_r]. rewrite andb_true_r.
    apply bool_decide_eq_false. intros Hlen.
    destruct found; [|done]. specialize (Hres w). injection Hres as <-.
    apply Hgo; [done|]. subst changed all. by destruct incl. }
  assert (Hc2 : fail && negb (bool_decide (0 < length changed)%nat) = false).
  { destruct fail; [|done]. specialize (Hgo eq_refl).
    rewrite bool_decide_true; [done|]. destruct changed; [done|simpl; lia]. }
  unfold run, try_catch.
  rewrite Hfail, Hupd, Hwr, Hovi, Hdry, Hincl. cbn [lift].
  rewrite !ret_bind. unfold info, warning, setOutput.
  rewrite emit_bind, (bind_peel _ _ _ _ _ (Hfound _)); world_simpl.
  rewrite emit_bind; world_simpl. rewrite if_emit_bind, Hc1; world_simpl.
  rewrite if_emit_bind; world_simpl.
  unfold run_options in Hres. rewrite (bind_peel _ _ _ _ _ (Hres _)).
  rewrite (bind_peel _ _ _ _ _ (analyzeResults_eq _ _ _)); world_simpl.
  cbn [hasChanges projects changedProjects summary].
  fold all. fold changed. fold analysisResult. rewrite Hc2.
  do 5 (rewrite emit_bind; world_simpl).
  rewrite (bind_peel _ _ _ _ _ (set_version_components_events _ _)); world_simpl.
  assert (Hw1 : World (files w) (locked w)
            (((((((((((events w
               ++ [Info (str "Calculating project versions...")])
               ++ [Info (str "Found " ++ of_nat (length found)
                         ++ str " project files")])
               ++ (if negb incl
                   then [Info (str "Test projects will be excluded from results")]
                   else []))
               ++ (if bool_decide (length found = 0%nat)
                   then [Warning (str "No project files found matching the pattern")]
                   else []))
               ++ (if negb incl
                      && bool_decide
                           (0 < length (filter (λ p, isTestProject p) results))%nat
                   then [Info (str "Filtered out "
                               ++ of_nat (length (filter (λ p, isTestProject p) results))
                               ++ str " test project(s)")]
                   else []))
               ++ [SetOutput (str "projects") (JsonProjects all)])
               ++ [SetOutput (str "changed-projects") (JsonProjects changed)])
               ++ [SetOutput (str "has-changes")
                     (Text (of_bool (bool_decide (0 < length changed)%nat)))])
               ++ [SetOutput (str "summary") (Text (generateSummary all changed))])
               ++ [SetOutput (str "version-map")
                     (JsonVersionMap (createVersionMap env all))])
               ++ version_outputs all) = w1).
  { subst w1. unfold run_preamble, run_notes, aggregate_outputs.
    f_equal. by rewrite <-!app_assoc. }
  unfold version_outputs in Hw1. rewrite Hw1. clear Hw1.
  assert (Hstep : ∀ k : unit → M unit,
            ((if upd || wr
              then if dry
                   then emit (Info (str "[DRY RUN] Would update project properties"))
                   else updateProjects env all upd wr
              else mret tt) ≫= k) w1 = k tt w2).
  { intros k. subst w2. destruct (upd || wr); [|done].
    destruct dry; [done|].
    pose proof (updateProjects_returns env all upd wr w1) as Hret.
    unfold mbind, M_bind.
    by destruct (updateProjects env all upd wr w1) as [[e|[]] w3]. }
  rewrite Hstep. rewrite if_emit_bind. unfold emit, run_closing. world_simpl.
  by rewrite <-!app_assoc.
Qed.

#[local] Transparent set_version_components updateProjects str.

End RunPaths.

Section RunCases.

Variable env : Env.

Lemma is_info_quiet (evs : list event) : Forall is_info evs → Forall quiet evs.
Proof. intros H. eapply Forall_impl; [exact H|]. by intros e [m ->]. Qed.

Lemma is_info_no_write (evs : list event) :
  Forall is_info evs → Forall no_write evs.
Proof. intros H. eapply Forall_impl; [exact H|]. by intros e [m ->]. Qed.

Lemma run_preamble_info (found : list jsstring) (incl : bool) :
  Forall is_info (run_preamble found incl).
Proof.
  unfold run_preamble. destruct incl; repeat constructor; by eexists.
Qed.

Lemma run_notes_info (found : list jsstring) (results : list ProjectVersion)
    (incl : bool) :
  found ≠ [] → Forall is_info (run_notes found results incl).
Proof.
  intros Hne. unfold run_notes.
  rewrite bool_decide_false by by destruct found.
  destruct (negb incl && _); repeat constructor; by eexists.
Qed.

#[local] Opaque str.

(** Either [run] stops, marking the run as failed after lines of the log
    only, or it gets its inputs, its project files and a record for each
    of them, and goes on. *)
Lemma run_cases (w : world) :
  (∃ before message,
     Forall is_info before
     ∧ run env w = (inr tt, World (files w) (locked w)
                              (events w ++ before ++ [SetFailed message])))
  ∨ (∃ (fail upd wr ovi dry incl : bool) found results,
       getBooleanInput env (str "fail-on-no-changes") = inr fail
       ∧ getBooleanInput env (str "update-project-properties") = inr upd
       ∧ getBooleanInput env (str "write-mrversion-props") = inr wr
       ∧ getBooleanInput env (str "output-version-information") = inr ovi
       ∧ getBooleanInput env (str "dry-run") = inr dry
       ∧ getBooleanInput env (str "include-test-projects") = inr incl
       ∧ (∀ w, findProjectFiles env
                 (or_else (getInput env (str "projects")) (str "**/*.csproj"))
                 (or_else (getInput env (str "repository-path")) (str ".")) w
               = (inr found, w))
       ∧ (∀ w, map_m (λ f, calculateProjectVersion env (run_options env dry f))
                 found w
               = (inr results, w))
       ∧ (fail = true →
          filter (λ p, versionChanged p)
            (if incl then results
             else filter (λ p, negb (isTestProject p)) results) ≠ [])).
Proof.
  destruct (getBooleanInput env (str "fail-on-no-changes")) as [e|fail] eqn:Hfail.
  { left. exists [], (str "Failed to calculate versions: " ++ err_message e).
    split; [constructor|]. unfold run, try_catch. by rewrite Hfail. }
  destruct (getBooleanInput env (str "update-project-properties"))
    as [e|upd] eqn:Hupd.
  { left. exists [], (str "Failed to calculate versions: " ++ err_message e).
    split; [constructor|]. unfold run, try_catch. by rewrite Hfail, Hupd. }
  destruct (getBooleanInput env (str "write-mrversion-props"))
    as [e|wr] eqn:Hwr.
  { left. exists [], (str "Failed to calculate versions: " ++ err_message e).
    split; [constructor|]. unfold run, try_catch. by rewrite Hfail, Hupd, Hwr. }
  destruct (getBooleanInput env (str "output-version-information"))
    as [e|ovi] eqn:Hovi.
  { left. exists [], (str "Failed to calculate versions: " ++ err_message e).
    split; [constructor|]. unfold run, try_catch.
    by rewrite Hfail, Hupd, Hwr, Hovi. }
  destruct (getBooleanInput env (str "dry-run")) as [e|dry] eqn:Hdry.
  { left. exists [], (str "Failed to calculate versions: " ++ err_message e).
    split; [constructor|]. unfold run, try_catch.
    by rewrite Hfail, Hupd, Hwr, Hovi, Hdry. }
  destruct (getBooleanInput env (str "include-test-projects"))
    as [e|incl] eqn:Hincl.
  { left. exists [], (str "Failed to calculate versions: " ++ err_message e).
    split; [constructor|]. unfold run, try_catch.
    by rewrite Hfail, Hupd, Hwr, Hovi, Hdry, Hincl. }
  destruct (findProjectFiles_pure env
              (or_else (getInput env (str "projects")) (str "**/*.csproj"))
              (or_else (getInput env (str "repository-path")) (str ".")))
    as ([e|found] & Hfound).
  { left. exists [Info (str "Calculating project versions...")],
      (str "Failed to calculate versions: " ++ err_message e).
    split; [repeat constructor; by eexists|]. unfold run, try_catch.
    rewrite Hfail, Hupd, Hwr, Hovi, Hdry, Hincl. cbn [lift].
    rewrite !ret_bind. unfold info. rewrite emit_bind.
    rewrite (bind_stop _ _ _ _ _ (Hfound _)). unfold setFailed, emit.
    world_simpl. by rewrite <-app_assoc. }
  destruct (map_m_pure
              (λ f, calculateProjectVersion env (run_options env dry f)) found)
    as ([e|results] & Hres).
  { intros f. apply calculateProjectVersion_pure. }
  { left. eexists _, _. split; [|by eapply run_stops_on_tool_failure].
    apply run_preamble_info. }
  destruct (decide (found = [])) as [Hnil|Hne].
  { destruct fail.
    - left. eexists _, _. split; [|by eapply run_stops_without_files].
      apply run_preamble_info.
    - right. by exists false, upd, wr, ovi, dry, incl, found, results. }
  destruct fail; [|by right; exists false, upd, wr, ovi, dry, incl, found, results].
  destruct (filter (λ p, versionChanged p)
              (if incl then results
               else filter (λ p, negb (isTestProject p)) results)) eqn:Hch.
  - left. eexists (_ ++ _), _.
    split; [|rewrite <-app_assoc; by eapply run_stops_without_changes].
    apply Forall_app_2; [apply run_preamble_info|by apply run_notes_info].
  - right. exists true, upd, wr, ovi, dry, incl, found, results.
    split_and!; try done. intros _. by rewrite Hch.
Qed.

#[local] Transparent str.

End RunCases.

Section RunFacts.

Lemma output_of_stopped (name : jsstring) (before : list event)
    (message : jsstring) :
  Forall is_info before → output_of name (before ++ [SetFailed message]) = None.
Proof.
  intros Hb. rewrite output_of_app. cbn. by apply output_of_quiet, is_info_quiet.
Qed.

Lemma no_write_outputs (env : Env) (all changed : list ProjectVersion) :
  Forall no_write (aggregate_outputs env all changed ++ version_outputs all).
Proof.
  apply Forall_app_2; [by repeat constructor|].
  unfold version_outputs. destruct all; by repeat constructor.
Qed.

Lemma no_write_notes (found : list jsstring) (results : list ProjectVersion)
    (incl : bool) :
  Forall no_write (run_preamble found incl ++ run_notes found results incl).
Proof.
  apply Forall_app_2; [apply is_info_no_write, run_preamble_info|].
  unfold run_notes. apply Forall_app_2.
  - by destruct (bool_decide _); repeat constructor.
  - by destruct (negb incl && _); repeat constructor.
Qed.

Lemma no_write_closing (env : Env) (ovi : bool) (r : VersionCalculationResult)
    (results : list ProjectVersion) :
  Forall no_write (run_closing env ovi r results).
Proof. unfold run_closing. by destruct ovi; repeat constructor. Qed.

End RunFacts.

(** X15. When the tool fails for a project file, and has given a record
    for every project file before it, [run] returns with the run marked as
    failed with the message of that failure; it has set no output, also
    none for the projects that had their record, and changed no file. *)
Theorem run_stops_at_first_failure (env : Env) (w : world)
    (fail upd wr ovi dry incl : bool) (ok : list jsstring) (bad : jsstring)
    (rest : list jsstring) (e : js_error) :
  getBooleanInput env (str "fail-on-no-changes") = inr fail →
  getBooleanInput env (str "update-project-properties") = inr upd →
  getBooleanInput env (str "write-mrversion-props") = inr wr →
  getBooleanInput env (str "output-version-information") = inr ovi →
  getBooleanInput env (str "dry-run") = inr dry →
  getBooleanInput env (str "include-test-projects") = inr incl →
  (∀ w, findProjectFiles env
          (or_else (getInput env (str "projects")) (str "**/*.csproj"))
          (or_else (getInput env (str "repository-path")) (str ".")) w
        = (inr (ok ++ bad :: rest), w)) →
  Forall (λ f, ∃ p, (calculateProjectVersion env (run_options env dry f) w).1
                    = inr p) ok →
  (calculateProjectVersion env (run_options env dry bad) w).1 = inl e →
  ∃ w' added,
    run env w = (inr tt, w')
    ∧ files w' = files w
    ∧ events w' = events w ++ added
    ∧ last added
      = Some (SetFailed (str "Failed to calculate versions: " ++ err_message e))
    ∧ ∀ name, output_of name added = None.
Proof.
  intros Hfail Hupd Hwr Hovi Hdry Hincl Hfound Hok Hbad.
  assert (Hres : ∀ w, map_m (λ f, calculateProjectVersion env (run_options env dry f))
                        (ok ++ bad :: rest) w = (inl e, w)).
  { apply map_m_first_failure.
    - eapply Forall_impl; [exact Hok|]. intros f [p Hp]. exists p. intros w0.
      destruct (calculateProjectVersion_pure env (run_options env dry f))
        as [r Hr]. rewrite Hr in Hp |- *. cbn [fst] in Hp. by rewrite Hp.
    - intros w0.
      destruct (calculateProjectVersion_pure env (run_options env dry bad))
        as [r Hr]. rewrite Hr in Hbad |- *. cbn [fst] in Hbad. by rewrite Hbad. }
  eexists _, _. split; [by eapply run_stops_on_tool_failure|].
  cbn [files events]. split_and!; [done|done| |].
  - by rewrite last_snoc.
  - intros name. apply output_of_stopped, run_preamble_info.
Qed.

Lemma run_stops_at_first_failure_witness :
  let a := Demo.record "A" "/repo/src/A/A.csproj" "1.2.0" true in
  ∃ w' added,
    run (Demo.env [] [path a; str "/repo/src/B/B.csproj"] [(path a, a)])
      Demo.empty_world = (inr tt, w')
    ∧ files w' = files Demo.empty_world
    ∧ events w' = events Demo.empty_world ++ added
    ∧ last added
      = Some (SetFailed
                (str "Failed to calculate versions: Failed to parse mr-version output for /repo/src/B/B.csproj: SyntaxError: Unexpected token"))
    ∧ ∀ name, output_of name added = None.
Proof.
  intros a.
  apply (run_stops_at_first_failure
           (Demo.env [] [path a; str "/repo/src/B/B.csproj"] [(path a, a)])
           Demo.empty_world false false false false false false
           [path a] (str "/repo/src/B/B.csproj") []
           (parse_failure (str "/repo/src/B/B.csproj")
              (str "SyntaxError: Unexpected token")));
    try reflexivity.
  repeat constructor. by exists a.
Defined.

(** X16. With fail-on-no-changes, a run that finds no project file, or
    none whose version has changed among the projects it keeps, returns
    with the run marked as failed, the message saying which of the two it
    was; it has set no output and changed no file. *)
Theorem run_fails_without_changes (env : Env) (w : world)
    (upd wr ovi dry incl : bool)
    (found : list jsstring) (results : list ProjectVersion) :
  getBooleanInput env (str "fail-on-no-changes") = inr true →
  getBooleanInput env (str "update-project-properties") = inr upd →
  getBooleanInput env (str "write-mrversion-props") = inr wr →
  getBooleanInput env (str "output-version-information") = inr ovi →
  getBooleanInput env (str "dry-run") = inr dry →
  getBooleanInput env (str "include-test-projects") = inr incl →
  (∀ w, findProjectFiles env
          (or_else (getInput env (str "projects")) (str "**/*.csproj"))
          (or_else (getInput env (str "repository-path")) (str ".")) w
        = (inr found, w)) →
  (∀ w, map_m (λ f, calculateProjectVersion env (run_options env dry f)) found w
        = (inr results, w)) →
  let all := if incl then results
             else filter (λ p, negb (isTestProject p)) results in
  filter (λ p, versionChanged p) all = [] →
  ∃ w' added,
    run env w = (inr tt, w')
    ∧ files w' = files w
    ∧ events w' = events w ++ added
    ∧ last added
      = Some (SetFailed
                match found with
                | [] => str "No project files found and fail-on-no-changes is enabled"
                | _ => str "No version changes detected and fail-on-no-changes is enabled"
                end)
    ∧ ∀ name, output_of name added = None.
Proof.
  intros Hfail Hupd Hwr Hovi Hdry Hincl Hfound Hres all Hnone.
  destruct found as [|f found].
  - eexists _, _. split; [by eapply run_stops_without_files|].
    cbn [files events]. split_and!; [done|done| |].
    + by rewrite last_snoc.
    + intros name. apply output_of_stopped, run_preamble_info.
  - eexists _, (_ ++ _ ++ _).
    split; [by eapply run_stops_without_changes|].
    cbn [files events]. split_and!; [done|done| |].
    + by rewrite !app_assoc, last_snoc.
    + intros name. rewrite app_assoc. apply output_of_stopped.
      apply Forall_app_2; [apply run_preamble_info|by apply run_notes_info].
Qed.

Lemma run_fails_without_changes_witness :
  let a := Demo.record "A" "/repo/src/A/A.csproj" "1.2.0" false in
  ∃ w' added,
    run (Demo.env [str "fail-on-no-changes"] [path a] [(path a, a)])
      Demo.empty_world = (inr tt, w')
    ∧ files w' = files Demo.empty_world
    ∧ events w' = events Demo.empty_world ++ added
    ∧ last added
      = Some (SetFailed
                (str "No version changes detected and fail-on-no-changes is enabled"))
    ∧ ∀ name, output_of name added = None.
Proof.
  intros a.
  apply (run_fails_without_changes
           (Demo.env [str "fail-on-no-changes"] [path a] [(path a, a)])
           Demo.empty_world false false false false false [path a] [a]);
    reflexivity.
Defined.


(** X18. In a dry run, and in a run that is asked neither to update the
    project files nor to write the [MrVersion.props], [run] changes no
    file and makes no write, whatever else happens. *)
Theorem run_writes_only_when_asked (env : Env) (w : world) :
  getBooleanInput env (str "dry-run") = inr true
  ∨ (getBooleanInput env (str "update-project-properties") = inr false
     ∧ getBooleanInput env (str "write-mrversion-props") = inr false) →
  ∃ w' added,
    run env w = (inr tt, w')
    ∧ files w' = files w
    ∧ events w' = events w ++ added
    ∧ Forall no_write added.
Proof.
  intros Hasked. destruct (run_cases env w)
    as [(before & message & Hb & Hrun)
       |(fail & upd & wr & ovi & dry & incl & found & results
         & Hfail & Hupd & Hwr & Hovi & Hdry & Hincl & Hfound & Hres & Hgo)].
  - eexists _, _. split; [exact Hrun|]. cbn [files events].
    split_and!; [done..|].
    apply Forall_app_2; [by apply is_info_no_write|by repeat constructor].
  - pose proof (run_world env w fail upd wr ovi dry incl found results
                  Hfail Hupd Hwr Hovi Hdry Hincl Hfound Hres Hgo) as Hrun.
    cbv zeta in Hrun.
    assert (Hcase : upd || wr = false ∨ (upd || wr = true ∧ dry = true)).
    { destruct Hasked as [Hd|[Hu Hw]].
      - rewrite Hdry in Hd. injection Hd as ->. destruct (upd || wr); auto.
      - rewrite Hupd in Hu. rewrite Hwr in Hw.
        injection Hu as ->. injection Hw as ->. by left. }
    destruct Hcase as [Hnone|[Hsome ->]].
    + rewrite Hnone in Hrun. eexists _, _. split; [exact Hrun|].
      cbn [files events]. split_and!; [done| |].
      * rewrite <-!app_assoc. reflexivity.
      * rewrite app_assoc. apply Forall_app_2; [apply no_write_notes|].
        rewrite app_assoc. apply Forall_app_2; [apply no_write_outputs|].
        apply no_write_closing.
    + rewrite Hsome in Hrun. eexists _, _. split; [exact Hrun|].
      cbn [files events]. split_and!; [done| |].
      * rewrite <-!app_assoc. reflexivity.
      * rewrite app_assoc. apply Forall_app_2; [apply no_write_notes|].
        rewrite app_assoc. apply Forall_app_2; [apply no_write_outputs|].
        apply Forall_cons_2; [done|]. apply no_write_closing.
Qed.

Lemma run_writes_only_when_asked_witness :
  let a := Demo.record "A" "/repo/src/A/A.csproj" "1.2.0" true in
  let flags := [str "dry-run"; str "update-project-properties";
                str "write-mrversion-props"] in
  let w := World {[ path a := str "<Version>1.0.0</Version>" ]} ∅ [] in
  ∃ w' added,
    run (Demo.env flags [path a] [(path a, a)]) w = (inr tt, w')
    ∧ files w' = files w
    ∧ events w' = events w ++ added
    ∧ Forall no_write added.
Proof.
  intros a flags w.
  apply (run_writes_only_when_asked
           (Demo.env flags [path a] [(path a, a)]) w).
  left. reflexivity.
Defined.

(** X19. The five outputs of a run that goes on which are not read off
    the first project: the project list, without the test projects unless
    they are included, its records whose version changed, whether there is
    one, the summary of the two lists and the version map of the project
    list. *)
Theorem run_aggregate_outputs (env : Env) (w : world)
    (fail upd wr ovi dry incl : bool)
    (found : list jsstring) (results : list ProjectVersion) :
  getBooleanInput env (str "fail-on-no-changes") = inr fail →
  getBooleanInput env (str "update-project-properties") = inr upd →
  getBooleanInput env (str "write-mrversion-props") = inr wr →
  getBooleanInput env (str "output-version-information") = inr ovi →
  getBooleanInput env (str "dry-run") = inr dry →
  getBooleanInput env (str "include-test-projects") = inr incl →
  (∀ w, findProjectFiles env
          (or_else (getInput env (str "projects")) (str "**/*.csproj"))
          (or_else (getInput env (str "repository-path")) (str ".")) w
        = (inr found, w)) →
  (∀ w, map_m (λ f, calculateProjectVersion env (run_options env dry f)) found w
        = (inr results, w)) →
  let all := if incl then results
             else filter (λ p, negb (isTestProject p)) results in
  let changed := filter (λ p, versionChanged p) all in
  (fail = true → changed ≠ []) →
  let out := λ name, output_of (str name) (events (run env w).2) in
  out "projects" = Some (JsonProjects all)
  ∧ out "changed-projects" = Some (JsonProjects changed)
  ∧ out "has-changes"
    = Some (Text (match changed with [] => str "false" | _ => str "true" end))
  ∧ out "summary" = Some (Text (generateSummary all changed))
  ∧ out "version-map" = Some (JsonVersionMap (createVersionMap env all)).
Proof.
  intros Hfail Hupd Hwr Hovi Hdry Hincl Hfound Hres all changed Hgo out.
  destruct (run_outputs env w fail upd wr ovi dry incl found results
              Hfail Hupd Hwr Hovi Hdry Hincl Hfound Hres Hgo)
    as (w' & before & after & Hrun & Hb & Ha & Hev).
  fold all in Hev. fold changed in Hev. subst out. cbv beta.
  rewrite Hrun. cbn [snd]. rewrite Hev.
  rewrite !(output_of_app _ (events w)), !output_of_run by done.
  assert (Hhas : of_bool (bool_decide (0 < length changed)%nat)
                 = match changed with [] => str "false" | _ => str "true" end).
  { destruct changed; [done|]. by rewrite bool_decide_true by (simpl; lia). }
  rewrite <-Hhas. destruct all; by split_and!.
Qed.

Lemma run_aggregate_outputs_witness :
  let a := Demo.record "A" "/repo/src/A/A.csproj" "1.2.0" true in
  let b := Demo.record "B" "/repo/src/B/B.csproj" "2.0.0" false in
  let evs := events (run (Demo.env [] [path a; path b] [(path a, a); (path b, b)])
                       Demo.empty_world).2 in
  output_of (str "projects") evs = Some (JsonProjects [a; b])
  ∧ output_of (str "changed-projects") evs = Some (JsonProjects [a])
  ∧ output_of (str "has-changes") evs = Some (Text (str "true")).
Proof.
  intros a b evs.
  pose proof (run_aggregate_outputs
                (Demo.env [] [path a; path b] [(path a, a); (path b, b)])
                Demo.empty_world false false false false false false
                [path a; path b] [a; b]
                eq_refl eq_refl eq_refl eq_refl eq_refl eq_refl
                (λ _, eq_refl) (λ _, eq_refl)
                (λ H : false = true,
                   False_ind _ (eq_ind false (λ b, if b then False else True)
                                  I true H)))
    as (H1 & H2 & H3 & _).
  split_and!; [exact H1|exact H2|exact H3].
Defined.

(** X20. How a run that goes on ends: the job summary, when it is asked
    for, holds the result in the output format, which is [json] when the
    input is unset, and the last line of the log counts the project files
    found, the test projects left out among them, and the changed projects
    kept. *)
Theorem run_closing_lines (env : Env) (w : world)
    (fail upd wr ovi dry incl : bool)
    (found : list jsstring) (results : list ProjectVersion) :
  getBooleanInput env (str "fail-on-no-changes") = inr fail →
  getBooleanInput env (str "update-project-properties") = inr upd →
  getBooleanInput env (str "write-mrversion-props") = inr wr →
  getBooleanInput env (str "output-version-information") = inr ovi →
  getBooleanInput env (str "dry-run") = inr dry →
  getBooleanInput env (str "include-test-projects") = inr incl →
  (∀ w, findProjectFiles env
          (or_else (getInput env (str "projects")) (str "**/*.csproj"))
          (or_else (getInput env (str "repository-path")) (str ".")) w
        = (inr found, w)) →
  (∀ w, map_m (λ f, calculateProjectVersion env (run_options env dry f)) found w
        = (inr results, w)) →
  let all := if incl then results
             else filter (λ p, negb (isTestProject p)) results in
  let changed := filter (λ p, versionChanged p) all in
  (fail = true → changed ≠ []) →
  let result :=
    {| projects := all; changedProjects := changed;
       hasChanges := bool_decide (0 < length changed)%nat;
       summary := generateSummary all changed |} in
  let format := or_else (getInput env (str "output-format")) (str "json") in
  ∃ earlier,
    events (run env w).2 =
    earlier
    ++ (if ovi
        then [JobSummary ([55357; 56522] ++ str " Version Calculation Results")
                (if eqb (to_lower format) (str "yaml")
                 then Text (formatAsYaml result)
                 else if eqb (to_lower format) (str "text")
                      then Text (formatAsText result)
                      else JsonResult result)
                format]
        else [])
    ++ [Info ([9989] ++ str " Analyzed " ++ of_nat (length found)
              ++ str " projects, " ++ of_nat (length changed)
              ++ str " with changes")].
Proof.
  intros Hfail Hupd Hwr Hovi Hdry Hincl Hfound Hres all changed Hgo
    result format.
  pose proof (run_world env w fail upd wr ovi dry incl found results
                Hfail Hupd Hwr Hovi Hdry Hincl Hfound Hres Hgo) as Hrun.
  cbv zeta in Hrun. rewrite Hrun. cbn [snd events].
  rewrite <-(map_m_length _ _ _ _ _ (Hres w)). by eexists.
Qed.

Lemma run_closing_lines_witness :
  let a := Demo.record "A" "/repo/src/A/A.csproj" "1.2.0" true in
  ∃ earlier,
    events (run (Demo.env [] [path a] [(path a, a)]) Demo.empty_world).2 =
    earlier
    ++ [Info ([9989] ++ str " Analyzed " ++ of_nat 1 ++ str " projects, "
              ++ of_nat 1 ++ str " with changes")].
Proof.
  intros a.
  apply (run_closing_lines (Demo.env [] [path a] [(path a, a)])
           Demo.empty_world false false false false false false
           [path a] [a]
           eq_refl eq_refl eq_refl eq_refl eq_refl eq_refl
           (λ _, eq_refl) (λ _, eq_refl)
           (λ H : false = true,
              False_ind _ (eq_ind false (λ b, if b then False else True)
                             I true H))).
Defined.

(** X21. The files a run that goes on can change: outside a dry run, only
    the project files of the projects it keeps, if it is to update them,
    and the [MrVersion.props] next to these, if it is to write them; so
    with the test projects left out, none of theirs. *)
Theorem run_footprint (env : Env) (w : world)
    (fail upd wr ovi dry incl : bool)
    (found : list jsstring) (results : list ProjectVersion) (f : jsstring) :
  getBooleanInput env (str "fail-on-no-changes") = inr fail →
  getBooleanInput env (str "update-project-properties") = inr upd →
  getBooleanInput env (str "write-mrversion-props") = inr wr →
  getBooleanInput env (str "output-version-information") = inr ovi →
  getBooleanInput env (str "dry-run") = inr dry →
  getBooleanInput env (str "include-test-projects") = inr incl →
  (∀ w, findProjectFiles env
          (or_else (getInput env (str "projects")) (str "**/*.csproj"))
          (or_else (getInput env (str "repository-path")) (str ".")) w
        = (inr found, w)) →
  (∀ w, map_m (λ f, calculateProjectVersion env (run_options env dry f)) found w
        = (inr results, w)) →
  let all := if incl then results
             else filter (λ p, negb (isTestProject p)) results in
  (fail = true → filter (λ p, versionChanged p) all ≠ []) →
  (upd = true → f ∉ path <$> all) →
  (wr = true → f ∉ props_path env <$> all) →
  files (run env w).2 !! f = files w !! f.
Proof.
  intros Hfail Hupd Hwr Hovi Hdry Hincl Hfound Hres all Hgo Hup Hprops.
  pose proof (run_world env w fail upd wr ovi dry incl found results
                Hfail Hupd Hwr Hovi Hdry Hincl Hfound Hres Hgo) as Hrun.
  cbv zeta in Hrun. rewrite Hrun. cbn [snd files].
  destruct (upd || wr); [|done]. destruct dry; [done|].
  fold all. match goal with
  | |- files (updateProjects env all upd wr ?w1).2 !! f = _ =>
      destruct (confined_updateProjects env all upd wr w1) as [_ Hf]
  end.
  rewrite Hf; [done|]. intros [[-> Hin]|[-> Hin]]; [by apply Hup|by apply Hprops].
Qed.

Lemma run_footprint_witness :
  let a := Demo.record "A" "/repo/src/A/A.csproj" "1.2.0" true in
  let flags := [str "update-project-properties"; str "write-mrversion-props"] in
  let w := World {[ path a := str "<Version>1.0.0</Version>";
                    str "/repo/README.md" := str "<Version>1.0.0</Version>" ]}
                 ∅ [] in
  files (run (Demo.env flags [path a] [(path a, a)]) w).2 !! str "/repo/README.md"
  = Some (str "<Version>1.0.0</Version>").
Proof.
  intros a flags w.
  refine (eq_trans
            (run_footprint (Demo.env flags [path a] [(path a, a)]) w
               false true true false false false [path a] [a]
               (str "/repo/README.md")
               eq_refl eq_refl eq_refl eq_refl eq_refl eq_refl
               (λ _, eq_refl) (λ _, eq_refl) _ _ _) _).
  - intros H. discriminate H.
  - intros _. apply (bool_decide_unpack _). vm_compute. exact I.
  - intros _. apply (bool_decide_unpack _). vm_compute. exact I.
  - vm_compute. reflexivity.
Defined.

(** ** The lines of a project file *)

Section Lines.

Lemma one_line_breaks (s : jsstring) :
  one_line s → filter (λ c, is_line_terminator c) s = [].
Proof.
  induction 1 as [|c s Hc _ IH]; [done|].
  rewrite filter_cons_False by (rewrite Hc; intros []). done.
Qed.

Lemma rewrites_breaks (open close value s s' : jsstring) :
  one_line value →
  rewrites open close value s s' →
  filter (λ c, is_line_terminator c) s' = filter (λ c, is_line_terminator c) s.
Proof.
  intros Hv. induction 1 as [|x s s' _ IH|inner s s' Hinner _ IH]; [done| |].
  - rewrite !filter_cons. by rewrite IH.
  - rewrite !filter_app, IH.
    by rewrite (one_line_breaks value), (one_line_breaks inner).
Qed.

Lemma apply_passes_breaks (ps : list (jsstring * jsstring)) (c : jsstring) :
  Forall (λ nv, nv.1 ∈ property_names ∧ good_value nv.2) ps →
  filter (λ c, is_line_terminator c) (apply_passes ps c)
  = filter (λ c, is_line_terminator c) c.
Proof.
  intros Hps. revert c.
  induction Hps as [|[n v] ps [Hn (_ & Lv & Dv)] _ IH]; intros c; [done|].
  rewrite apply_passes_cons, IH. cbn [fst snd] in *.
  apply (rewrites_breaks (open_tag n) (close_tag n) v); [done|].
  by apply replace_property_rewrites.
Qed.

End Lines.

(** X22. For a version with neither [<] nor [$] in it, the text
    [updateProjectFile] computes has the line terminators of the text it
    read, as many and in the same order: an update neither joins nor
    splits lines. *)
Theorem update_keeps_lines (p : ProjectVersion) (g : version_groups)
    (content : jsstring) :
  version_match (version p) = Some g →
  plain (version p) → literal (version p) →
  filter (λ c, is_line_terminator c) (updated_content p g content)
  = filter (λ c, is_line_terminator c) content.
Proof.
  intros Hm Hp Hd. rewrite updated_content_passes.
  apply apply_passes_breaks.
  destruct (passes_names p g) as [_ Hn].
  pose proof (passes_values p g Hm Hp Hd) as Hv.
  rewrite Forall_forall in Hn, Hv |- *. intros nv Hnv. split; auto.
Qed.

Lemma update_keeps_lines_witness :
  let p := Demo.record "A" "/repo/src/A/A.csproj" "1.2.3-rc.1" true in
  let g := VersionGroups (str "1") (str "2") (str "3") (Some (str "rc.1")) in
  let content := str "<Version>1.0.0</Version>" ++ [LF; 13]
                 ++ str "<VersionSuffix>" ++ [LF] ++ str "</VersionSuffix>" in
  filter (λ c, is_line_terminator c) (updated_content p g content) = [LF; 13; LF].
Proof.
  intros p g content.
  refine (eq_trans (update_keeps_lines p g content eq_refl _ _) _).
  - decide_closed.
  - decide_closed.
  - vm_compute. reflexivity.
Defined.

(** ** Updates that fail *)

(** X23. A run that gets a record for every project file, and is not
    stopped by fail-on-no-changes, is never marked as failed, whatever
    state the files are in: a project file or a [MrVersion.props] that
    cannot be read or written does not fail the run. *)
Theorem run_survives_failed_updates (env : Env) (w : world)
    (fail upd wr ovi dry incl : bool)
    (found : list jsstring) (results : list ProjectVersion) :
  getBooleanInput env (str "fail-on-no-changes") = inr fail →
  getBooleanInput env (str "update-project-properties") = inr upd →
  getBooleanInput env (str "write-mrversion-props") = inr wr →
  getBooleanInput env (str "output-version-information") = inr ovi →
  getBooleanInput env (str "dry-run") = inr dry →
  getBooleanInput env (str "include-test-projects") = inr incl →
  (∀ w, findProjectFiles env
          (or_else (getInput env (str "projects")) (str "**/*.csproj"))
          (or_else (getInput env (str "repository-path")) (str ".")) w
        = (inr found, w)) →
  (∀ w, map_m (λ f, calculateProjectVersion env (run_options env dry f)) found w
        = (inr results, w)) →
  let all := if incl then results
             else filter (λ p, negb (isTestProject p)) results in
  (fail = true → filter (λ p, versionChanged p) all ≠ []) →
  ∃ w' added,
    run env w = (inr tt, w')
    ∧ events w' = events w ++ added
    ∧ ¬ failed added.
Proof.
  intros Hfail Hupd Hwr Hovi Hdry Hincl Hfound Hres all Hgo.
  destruct (run_outputs env w fail upd wr ovi dry incl found results
              Hfail Hupd Hwr Hovi Hdry Hincl Hfound Hres Hgo)
    as (w' & before & after & Hrun & Hb & Ha & Hev).
  fold all in Hev. eexists w', _. split; [exact Hrun|]. split; [exact Hev|].
  repeat apply not_failed_app; try by apply not_failed_quiet.
  all: apply not_failed_outputs.
  - repeat constructor; by eexists _, _.
  - destruct all; repeat constructor; by eexists _, _.
Qed.

Lemma run_survives_failed_updates_witness :
  let a := Demo.record "A" "/repo/src/A/A.csproj" "1.2.0" true in
  let flags := [str "update-project-properties"] in
  (∃ w' added,
     run (Demo.env flags [path a] [(path a, a)]) Demo.empty_world = (inr tt, w')
     ∧ events w' = events Demo.empty_world ++ added
     ∧ ¬ failed added)
  ∧ events (run (Demo.env flags [path a] [(path a, a)]) Demo.empty_world).2
    !! 13%nat
    = Some (Warning (update_failure a (ENOENT (path a)))).
Proof.
  intros a flags. split.
  - apply (run_survives_failed_updates
             (Demo.env flags [path a] [(path a, a)]) Demo.empty_world
             false true false false false false [path a] [a]);
      try reflexivity.
    intros H. discriminate H.
  - vm_compute. reflexivity.
Defined.

(** ** Examples *)

Example version_match_plain :
  version_match (str "1.2.3") = Some (VersionGroups (str "1") (str "2") (str "3") None).
Proof. reflexivity. Qed.

Example version_match_pre :
  version_match (str "10.0.7-beta.1") =
  Some (VersionGroups (str "10") (str "0") (str "7") (Some (str "beta.1"))).
Proof. reflexivity. Qed.

Example version_match_bad : version_match (str "not-a-version") = None.
Proof. reflexivity. Qed.

Example version_match_dash : version_match (str "1.2.3-") = None.
Proof. reflexivity. Qed.

Example replace_all_greedy :
  replace_all (str "<V>") (str "</V>") (str "<V>9</V>")
    (str "a<V>1</V>b</V>c<V>d") = str "a<V>9</V>c<V>d".
Proof. reflexivity. Qed.

Example replace_all_lines :
  replace_all (str "<V>") (str "</V>") (str "<V>$&|$$</V>")
    (str "<V>1</V>" ++ [LF] ++ str "<V>" ++ [LF] ++ str "</V><V></V>") =
  str "<V><V>1</V>|$</V>" ++ [LF] ++ str "<V>" ++ [LF] ++ str "</V><V><V></V>|$</V>".
Proof. reflexivity. Qed.
